(** * audio2tones: the analysis pipeline of [audio2tones.py]

    A shallow embedding of [compress_pwm_audio], of the numeric part of
    [main] (channel merge, windowing, dominant frequency, frequency
    quantisation, loudness normalisation) and of [print_result], with the
    properties of the pipeline stated and proved over it.

    Conventions.
    - Python and NumPy integers are [Z]; array indices and lengths are [nat].
    - float64 values are idealised as real numbers [R]: the arithmetic is
      exact, so rounding errors of the float operations are not represented.
      A float operation whose NumPy result is NaN or infinite has the outcome
      [NonFinite]: the model stops there instead of inventing a real value.
    - The window count and the window size are computed from integers
      alone. [analyse_float] and [main_float] compute them in binary64, bit
      for bit as the program does ([Float64]); [analyse] and [main] take
      them over the exact quotients. The two can differ when the length in
      windows falls on a half: 3 samples at 20 kHz are 2 windows over the
      exact product and 1 window in float64.
    - A raised Python exception is the outcome [Raise e]. *)

From Stdlib Require Import List ZArith Lia Bool Arith Permutation.
From Stdlib Require Import Reals Lra.
From Stdlib Require Ascii String HexadecimalN DecimalNat.
Import ListNotations.

(** ** Outcomes of a call: a value, a raised exception, or a non-finite float *)

Inductive exn : Type :=
| IndexError
| ValueError
| ZeroDivisionError
| TypeError
| OverflowError.

Inductive outcome (A : Type) : Type :=
| Ok (a : A)
| Raise (e : exn)
| NonFinite.

Arguments Ok {A} a.
Arguments Raise {A} e.
Arguments NonFinite {A}.

Definition bind {A B : Type} (c : outcome A) (k : A -> outcome B) : outcome B :=
  match c with
  | Ok a => k a
  | Raise e => Raise e
  | NonFinite => NonFinite
  end.

Declare Scope outcome_scope.
Delimit Scope outcome_scope with outcome.
Notation "x <- c ;; k" := (bind c (fun x => k))
  (at level 61, c at next level, right associativity) : outcome_scope.
Notation "' p <- c ;; k" := (bind c (fun x => let p := x in k))
  (at level 61, p pattern, c at next level, right associativity) : outcome_scope.
Open Scope outcome_scope.

(** [a[i]] on a Python list or a one-dimensional array, for [i >= 0]. *)
Definition index {A : Type} (a : list A) (i : nat) : outcome A :=
  match nth_error a i with
  | Some x => Ok x
  | None => Raise IndexError
  end.

(** ** Run-length encoder: [compress_pwm_audio] *)

Module Encoder.

(** A tone event [(duration, frequency bucket, loudness level)]. *)
Definition ToneEvent : Type := (Z * Z * Z)%type.

Definition ev_duration (e : ToneEvent) : Z := fst (fst e).
Definition ev_pair (e : ToneEvent) : Z * Z := (snd (fst e), snd e).

(** The local variables of [compress_pwm_audio] that the loop updates. *)
Record state : Type := mkState {
  last_freq : Z;
  last_module : Z;
  compressed_chunks : Z;
  new_durations : list Z;
  new_frequencies : list Z;
  new_modules : list Z
}.

(** One iteration of [for i, t in enumerate(duration[1:], 1)]. *)
Definition step (default_duration : Z) (frequency modules : list Z)
    (st : state) (i : nat) : outcome state :=
  let compressed_chunks := (compressed_chunks st + 1)%Z in
  f <- index frequency i ;;
  m <- index modules i ;;
  if negb (f =? last_freq st)%Z || negb (m =? last_module st)%Z then
    Ok {| last_freq := f;
          last_module := m;
          compressed_chunks := 0;
          new_durations :=
            new_durations st ++ [(default_duration * compressed_chunks)%Z];
          new_frequencies := new_frequencies st ++ [f];
          new_modules := new_modules st ++ [m] |}
  else
    Ok {| last_freq := last_freq st;
          last_module := last_module st;
          compressed_chunks := compressed_chunks;
          new_durations := new_durations st;
          new_frequencies := new_frequencies st;
          new_modules := new_modules st |}.

Fixpoint loop (default_duration : Z) (frequency modules : list Z)
    (indices : list nat) (st : state) : outcome state :=
  match indices with
  | [] => Ok st
  | i :: rest =>
      st' <- step default_duration frequency modules st i ;;
      loop default_duration frequency modules rest st'
  end.

(** [zip(new_durations, new_frequencies, new_modules)], which stops at the
    shortest of the three lists. *)
Definition zip3 (ds fs ms : list Z) : list ToneEvent :=
  combine (combine ds fs) ms.

(** [round(duration[0])] of an integer element is the element itself. *)
Definition compress_pwm_audio (duration frequency modules : list Z)
    : outcome (list ToneEvent) :=
  default_duration <- index duration 0 ;;
  f0 <- index frequency 0 ;;
  m0 <- index modules 0 ;;
  let st0 := {| last_freq := f0;
                last_module := m0;
                compressed_chunks := 0;
                new_durations := [];
                new_frequencies := [f0];
                new_modules := [m0] |} in
  st <- loop default_duration frequency modules
          (seq 1 (length duration - 1)) st0 ;;
  let new_durations :=
    new_durations st ++ [(default_duration * compressed_chunks st)%Z] in
  Ok (zip3 new_durations (new_frequencies st) (new_modules st)).

(** The sum of [ToneEvent.duration] over an event list. *)
Definition total_duration (evs : list ToneEvent) : Z :=
  fold_right (fun e acc => (ev_duration e + acc)%Z) 0%Z evs.

(** The expansion the specification describes: every event becomes
    [duration / baseDuration] copies of its (bucket, level) pair. *)
Definition expand (base : Z) (evs : list ToneEvent) : list (Z * Z) :=
  flat_map (fun e => repeat (ev_pair e) (Z.to_nat (ev_duration e / base))) evs.

(** The per-window (bucket, level) pairs the encoder reads: entry [i] of
    [frequency] with entry [i] of [modules], for the [n] entries of
    [duration]. *)
Definition window_pairs (n : nat) (frequency modules : list Z) : list (Z * Z) :=
  combine (firstn n frequency) (firstn n modules).

(** A closed run of the encoder: its length in windows and its
    (bucket, level) pair; the event it is emitted as, for a base duration
    [d]; and the per-window pairs a list of runs stands for. *)
Definition run : Type := (nat * (Z * Z))%type.

Definition event_of_run (d : Z) (r : run) : ToneEvent :=
  ((d * Z.of_nat (fst r))%Z, fst (snd r), snd (snd r)).

Definition unfold_runs (runs : list run) : list (Z * Z) :=
  flat_map (fun r => repeat (snd r) (fst r)) runs.

(** What holds of the loop state once the entries [0 .. j] have been read:
    the closed runs and the open one account for the entries [0 .. j-1],
    the open run carries the pair of entry [j], and it is empty when that
    pair differs from the one before. *)
Definition loop_invariant (d : Z) (frequency modules : list Z) (j : nat)
    (st : state) : Prop :=
  exists (runs : list run) (c : nat),
    compressed_chunks st = Z.of_nat c /\
    new_durations st = map (fun r => ev_duration (event_of_run d r)) runs /\
    new_frequencies st = map (fun r => fst (snd r)) runs ++ [last_freq st] /\
    new_modules st = map (fun r => snd (snd r)) runs ++ [last_module st] /\
    unfold_runs runs ++ repeat (last_freq st, last_module st) c
      = window_pairs j frequency modules /\
    nth_error frequency j = Some (last_freq st) /\
    nth_error modules j = Some (last_module st) /\
    Forall (fun r => (1 <= fst r)%nat) runs /\
    (forall j' f m, j = S j' ->
       nth_error frequency j' = Some f -> nth_error modules j' = Some m ->
       (f, m) <> (last_freq st, last_module st) -> c = 0%nat).

End Encoder.

(** ** The NumPy and SciPy operations [main] calls, over the reals *)

Module Numpy.

Local Open Scope R_scope.

Definition Rleb (x y : R) : bool := if Rle_dec x y then true else false.
Definition Rltb (x y : R) : bool := if Rlt_dec x y then true else false.

(** Python's [round(x)] with one argument: the nearest integer, a tie going
    to the even one. *)
Definition py_round (x : R) : Z :=
  let f := Zfloor x in
  let r := x - IZR f in
  if Rlt_dec r (1 / 2) then f
  else if Rlt_dec (1 / 2) r then (f + 1)%Z
  else if Z.even f then f else (f + 1)%Z.

(** [a.max()] and [a.min()]: a reduction over an empty array raises. *)
Definition amax (a : list R) : outcome R :=
  match a with
  | [] => Raise ValueError
  | x :: xs => Ok (fold_left Rmax xs x)
  end.

Definition amin (a : list R) : outcome R :=
  match a with
  | [] => Raise ValueError
  | x :: xs => Ok (fold_left Rmin xs x)
  end.

(** [np.argmax]: the index of the first occurrence of the maximum. *)
Fixpoint argmax_from (best : R) (best_i i : nat) (a : list R) : nat :=
  match a with
  | [] => best_i
  | x :: xs =>
      if Rlt_dec best x then argmax_from x i (S i) xs
      else argmax_from best best_i (S i) xs
  end.

Definition argmax (a : list R) : outcome nat :=
  match a with
  | [] => Raise ValueError
  | x :: xs => Ok (argmax_from x 0 1 xs)
  end.

Fixpoint zip_with {A B C : Type} (f : A -> B -> C) (l1 : list A) (l2 : list B)
    : list C :=
  match l1, l2 with
  | x :: t1, y :: t2 => f x y :: zip_with f t1 t2
  | _, _ => []
  end.

(** [np.amax(samples, axis=0)] on a two-dimensional array given as the list
    of its rows (the channels): the maximum down every column. *)
Definition amax_axis0 (samples : list (list R)) : outcome (list R) :=
  match samples with
  | [] => Raise ValueError
  | c :: cs => Ok (fold_left (zip_with Rmax) cs c)
  end.

(** [np.maximum(a, b)], element by element. *)
Definition maximum (a b : list R) : list R := zip_with Rmax a b.

Fixpoint split_at_sizes {A : Type} (sizes : list nat) (l : list A)
    : list (list A) :=
  match sizes with
  | [] => []
  | s :: rest => firstn s l :: split_at_sizes rest (skipn s l)
  end.

(** The section sizes of [np.array_split(ary, n)]: with
    [each, extras = divmod(len(ary), n)], [extras] sections of [each + 1]
    elements followed by [n - extras] sections of [each]. *)
Definition section_sizes (total n : nat) : list nat :=
  (repeat (S (total / n)) (total mod n)
   ++ repeat (total / n) (n - total mod n))%nat.

Definition array_split {A : Type} (ary : list A) (sections : Z)
    : outcome (list (list A)) :=
  if (sections <=? 0)%Z then Raise ValueError
  else Ok (split_at_sizes (section_sizes (length ary) (Z.to_nat sections)) ary).

(** A complex number as (real part, imaginary part), and [np.abs] on it. *)
Definition complex : Type := (R * R)%type.

Definition np_abs (z : complex) : R := sqrt (Rsqr (fst z) + Rsqr (snd z)).

(** [sum over n of x_n * g n], the indices starting at [n]. *)
Fixpoint weighted_sum (g : nat -> R) (n : nat) (xs : list R) : R :=
  match xs with
  | [] => 0
  | x :: rest => x * g n + weighted_sum g (S n) rest
  end.

(** [scipy.fft.fft] of a real one-dimensional array: the discrete Fourier
    transform [X_k = sum_n x_n * exp(-2 pi i k n / L)]; an empty input is
    refused. *)
Definition fft (x : list R) : outcome (list complex) :=
  match x with
  | [] => Raise ValueError
  | _ =>
      let L := length x in
      let angle k n := 2 * PI * INR k * INR n / INR L in
      Ok (map (fun k =>
                 (weighted_sum (fun n => cos (angle k n)) 0 x,
                  weighted_sum (fun n => - sin (angle k n)) 0 x))
              (seq 0 L))
  end.

(** [range(lo, hi)] over the integers. *)
Definition zrange (lo hi : Z) : list Z :=
  map (fun i => (lo + Z.of_nat i)%Z) (seq 0 (Z.to_nat (hi - lo))).

(** [fftfreq(n, d)]: [val = 1.0 / (n * d)] is computed first (a Python float
    division), then the [n] bin numbers [0 .. (n-1)//2, -(n//2) .. -1] are
    scaled by it. *)
Definition fftfreq (n : Z) (d : R) : outcome (list R) :=
  if Req_dec_T (IZR n * d) 0 then Raise ZeroDivisionError
  else if (n <? 0)%Z then Raise ValueError
  else
    let val := 1 / (IZR n * d) in
    let N := ((n - 1) / 2 + 1)%Z in
    Ok (map (fun k => IZR k * val) (zrange 0 N ++ zrange (- (n / 2)) 0)).

(** Point [i] of [num] geometrically spaced points from [start] to [stop],
    [start * (stop/start)^(i/(num-1))]. *)
Definition geom_point (start stop : R) (num i : nat) : R :=
  start * Rpower (stop / start) (INR i / INR (num - 1)).

(** [np.geomspace(start, stop, num)]: a zero endpoint is refused; for
    endpoints of one sign the points are the geometrically spaced ones, the
    first and the last being set to [start] and [stop] themselves; for
    endpoints of opposite signs the logarithm of a negative number makes the
    inner points NaN. *)
Definition geomspace (start stop : R) (num : nat) : outcome (list R) :=
  if Req_dec_T start 0 then Raise ValueError
  else if Req_dec_T stop 0 then Raise ValueError
  else if Rlt_dec (start * stop) 0 then NonFinite
  else
    Ok (map (fun i =>
               if (i =? 0)%nat then start
               else if (i =? num - 1)%nat then stop
               else geom_point start stop num i)
            (seq 0 num)).

(** [a[0] = v] *)
Definition set_item0 {A : Type} (a : list A) (v : A) : outcome (list A) :=
  match a with
  | [] => Raise IndexError
  | _ :: t => Ok (v :: t)
  end.

(** The monotonicity test of [np.digitize]: [1] for non-decreasing bins
    (also when all edges are equal), [-1] for non-increasing ones, [0]
    otherwise. Leading repetitions of the first edge are skipped, the first
    different edge decides the direction, and the rest must not go against
    it. *)
Fixpoint skip_repeated (last : R) (a : list R) : list R :=
  match a with
  | [] => []
  | x :: t => if Req_dec_T x last then skip_repeated last t else a
  end.

Fixpoint never_descends (last : R) (a : list R) : bool :=
  match a with
  | [] => true
  | next :: t => if Rgt_dec last next then false else never_descends next t
  end.

Fixpoint never_ascends (last : R) (a : list R) : bool :=
  match a with
  | [] => true
  | next :: t => if Rlt_dec last next then false else never_ascends next t
  end.

Definition check_array_monotonic (a : list R) : Z :=
  match a with
  | [] => 1
  | last :: t =>
      match skip_repeated last t with
      | [] => 1
      | next :: rest =>
          if Rlt_dec last next
          then if never_descends next rest then 1 else 0
          else if never_ascends next rest then -1 else 0
      end
  end%Z.

(** [np.searchsorted(a, v, side)] on a sorted [a]: the number of elements
    [<= v] for [side='right'], of elements [< v] for [side='left']. *)
Definition searchsorted (a : list R) (v : R) (side_right : bool) : nat :=
  length (filter (fun b => if side_right then Rleb b v else Rltb b v) a).

(** [np.digitize(x, bins, right)]: bins that are not monotonic are refused;
    decreasing bins are searched reversed and the index is counted from the
    other end. *)
Definition digitize (x bins : list R) (right : bool) : outcome (list Z) :=
  let mono := check_array_monotonic bins in
  let side_right := negb right in
  if (mono =? 0)%Z then Raise ValueError
  else if (mono =? -1)%Z then
    Ok (map (fun v =>
               Z.of_nat (length bins - searchsorted (rev bins) v side_right))
            x)
  else Ok (map (fun v => Z.of_nat (searchsorted bins v side_right)) x).

(** [np.log] on one element: [-inf] at 0 and NaN below it. *)
Definition np_log (x : R) : outcome R :=
  if Rlt_dec 0 x then Ok (ln x) else NonFinite.

Fixpoint traverse {A B : Type} (f : A -> outcome B) (l : list A)
    : outcome (list B) :=
  match l with
  | [] => Ok []
  | x :: t => y <- f x ;; ys <- traverse f t ;; Ok (y :: ys)
  end.

(** [np.interp(x, (xp0, xp1), (fp0, fp1))] on one element, following the
    compiled routine for two data points: values beyond [xp1] give [fp1],
    values before [xp0] give [fp0]; the linear search for the interval then
    returns the last point as soon as [x >= xp1], and [fp1] is returned
    without any division; otherwise [x] lies in the first interval, where an
    exact hit of [xp0] gives [fp0] and any other point is interpolated. *)
Definition interp (x xp0 xp1 fp0 fp1 : R) : R :=
  if Rgt_dec x xp1 then fp1
  else if Rlt_dec x xp0 then fp0
  else if Rge_dec x xp1 then fp1
  else if Req_dec_T xp0 x then fp0
  else (fp1 - fp0) / (xp1 - xp0) * (x - xp0) + fp0.

(** [.astype(np.int16)]: truncation towards zero, then two's complement
    wrap-around to 16 bits. *)
Definition trunc (x : R) : Z := if Rle_dec 0 x then Zfloor x else Zceil x.

Definition wrap_int16 (z : Z) : Z := ((z + 32768) mod 65536 - 32768)%Z.

Definition astype_int16 (x : R) : Z := wrap_int16 (trunc x).

End Numpy.

(** ** The float64 arithmetic on integers *)

(** The window count and the window size are computed from integers (the
    number of samples, the sampling rate, the playback rate) by one or two
    float operations and [round]. These are modelled bit for bit: a finite
    binary64 value is a pair [(m, e)] that stands for [m * 2^e], and every
    operation gives the representable value nearest to the exact result, a
    tie going to the even significand. *)
Module Float64.

Local Open Scope Z_scope.

Definition float : Type := (Z * Z)%type.

(** The integer nearest to [p / q] for [q > 0], a tie going to the even
    one. *)
Definition div_round_half_even (p q : Z) : Z :=
  let f := p / q in
  let r := 2 * (p mod q) in
  if r <? q then f
  else if q <? r then f + 1
  else if Z.even f then f else f + 1.

(** [p / (q * 2^e)] as a fraction of integers. *)
Definition scaled (p q e : Z) : Z * Z :=
  if 0 <=? e then (p, q * 2 ^ e) else (p * 2 ^ (- e), q).

(** The binary64 value nearest to [p / q], for [q > 0]: the exponent is the
    one that leaves the significand 53 bits, and never below -1074 (the
    subnormal values); a result beyond the largest finite value is an
    overflow. *)
Definition round_fraction (p q : Z) : outcome float :=
  if p =? 0 then Ok (0, 0)
  else
    let a := Z.abs p in
    let e0 := Z.log2 a - Z.log2 q - 52 in
    let '(p0, q0) := scaled a q e0 in
    let e1 := if p0 / q0 <? 2 ^ 52 then e0 - 1 else e0 in
    let e := Z.max e1 (-1074) in
    let '(p1, q1) := scaled a q e in
    let m := div_round_half_even p1 q1 in
    if (972 <=? e) || ((e =? 971) && (2 ^ 53 <=? m))
    then Raise OverflowError
    else Ok (Z.sgn p * m, e).

(** [a / b] on Python integers: the correctly rounded quotient. *)
Definition true_divide (a b : Z) : outcome float :=
  if b =? 0 then Raise ZeroDivisionError
  else round_fraction (a * Z.sgn b) (Z.abs b).

(** [float(n)], the conversion applied to an integer operand. *)
Definition of_int (n : Z) : outcome float := round_fraction n 1.

(** [x * y] on floats. An infinite product is reported as the
    [OverflowError] that [round] raises on it. *)
Definition mul (x y : float) : outcome float :=
  let '(m1, e1) := x in
  let '(m2, e2) := y in
  let '(p, q) := scaled (m1 * m2) 1 (- (e1 + e2)) in
  round_fraction p q.

(** [round(x)] on a float: the nearest integer, a tie going to the even
    one. *)
Definition round (x : float) : Z :=
  let '(m, e) := x in
  if 0 <=? e then m * 2 ^ e else div_round_half_even m (2 ^ (- e)).

(** The real number a float stands for. *)
Definition to_R (x : float) : R := (IZR (fst x) * powerRZ 2 (snd x))%R.

End Float64.

(** ** The pipeline of [main] *)

Module Pipeline.

Import Numpy.
Local Open Scope R_scope.

(** An entry of the table [mcus]. *)
Record mcu : Type := mkMcu {
  available_freqs : list R;
  pwm_duty_cycle_max_value : Z;
  playback_sampling_rate : Z
}.

Definition ATmega328P : mcu :=
  {| available_freqs :=
       map (fun x => 16000000 / (x * 256)) [8; 32; 64; 128; 256; 1024];
     pwm_duty_cycle_max_value := 255 - 1;
     playback_sampling_rate := 10000 |}.

(** [get_dominant_freq_and_module(window_chunk, sampling_rate,
    fourier_window_size)] *)
Definition get_dominant_freq_and_module (window_chunk : list R)
    (sampling_rate : Z) (fourier_window_size : R) : outcome (R * R) :=
  fourier_data <- fft window_chunk ;;
  freqs <- fftfreq (py_round fourier_window_size) (1 / IZR sampling_rate) ;;
  let modules := map np_abs fourier_data in
  max_module <- amax modules ;;
  k <- argmax modules ;;
  dominant_freq <- index freqs k ;;
  Ok (dominant_freq, max_module).

(** [resampled_data_size]: the number of analysis windows,
    [round(duration * playback_sampling_rate)] with
    [duration = len(samples[0]) / sampling_rate]. *)
Definition resampled_data_size (m : mcu) (n_samples : nat) (sampling_rate : Z)
    : Z :=
  py_round (INR n_samples / IZR sampling_rate * IZR (playback_sampling_rate m)).

(** [merged_channels]: the maximum over the channels, then the maximum with
    an array of zeros as long as the first channel. *)
Definition merged_channels (samples : list (list R)) : outcome (list R) :=
  first <- index samples 0 ;;
  across <- amax_axis0 samples ;;
  Ok (maximum across (repeat 0 (length first))).

(** The three arrays [main] hands to the later stages. *)
Record analysis : Type := mkAnalysis {
  durations : list Z;
  frequencies : list R;
  modules : list R
}.

(** [len(samples[0])] at line 106. [samples] is what [audiofile.read]
    returns: for a recording with two or more channels a two-dimensional
    array, the list of its channels. For a recording with one channel it is
    a one-dimensional array, given here as a list of one row: then
    [samples[0]] is a sample ([IndexError] when there is none) and [len] of
    it raises [TypeError]. *)
Definition first_channel (samples : list (list R)) : outcome (list R) :=
  match samples with
  | [] => Raise IndexError
  | [row] =>
      match row with
      | [] => Raise IndexError
      | _ :: _ => Raise TypeError
      end
  | first :: _ :: _ => Ok first
  end.

(** Lines 106 and 122 as the program computes them, in float64:
    [len(samples[0]) / sampling_rate] is the correctly rounded quotient of
    two integers, the product with the playback rate is rounded again, and
    [round] gives the integer nearest to that float. *)
Definition resampled_data_size_float (m : mcu) (n_samples : nat)
    (sampling_rate : Z) : outcome Z :=
  duration <- Float64.true_divide (Z.of_nat n_samples) sampling_rate ;;
  rate <- Float64.of_int (playback_sampling_rate m) ;;
  product <- Float64.mul duration rate ;;
  Ok (Float64.round product).

(** Line 123 in float64. *)
Definition fourier_window_size_float (m : mcu) (sampling_rate : Z)
    : outcome Float64.float :=
  Float64.true_divide sampling_rate (playback_sampling_rate m).

(** Lines 126-148 of [main], for the window count [size] and the window
    size [fourier_window_size] of lines 122 and 123. The arrays
    [frequencies] and [modules] are allocated by
    [np.empty(resampled_data_size + 1)], which does not initialise them,
    and the loop over the [resampled_data_size] chunks writes the cells
    [0 .. resampled_data_size - 1]: the last cell of each keeps what the
    allocator left there, [junk_f] and [junk_m], taken here as finite
    values. [durations] is filled by [np.full] with
    [1 / playback_sampling_rate * 10e6] converted to [int16]. *)
Definition analyse_at (m : mcu) (merged : list R) (sampling_rate size : Z)
    (fourier_window_size junk_f junk_m : R) : outcome analysis :=
  let default :=
    astype_int16 (1 / IZR (playback_sampling_rate m) * 10000000) in
  chunks <- array_split merged size ;;
  found <- traverse
             (fun chunk =>
                get_dominant_freq_and_module chunk sampling_rate
                  fourier_window_size)
             chunks ;;
  Ok {| durations := repeat default (Z.to_nat (size + 1));
        frequencies := map fst found ++ [junk_f];
        modules := map snd found ++ [junk_m] |}.

(** Lines 105-148 of [main], the window count and the window size taken
    over the exact quotients. *)
Definition analyse (m : mcu) (samples : list (list R)) (sampling_rate : Z)
    (junk_f junk_m : R) : outcome analysis :=
  first <- first_channel samples ;;
  if (sampling_rate =? 0)%Z then Raise ZeroDivisionError
  else
    merged <- merged_channels samples ;;
    analyse_at m merged sampling_rate
      (resampled_data_size m (length first) sampling_rate)
      (IZR sampling_rate / IZR (playback_sampling_rate m))
      junk_f junk_m.

(** Lines 105-148 of [main], the window count and the window size computed
    in float64 as the program does. The merge of lines 116-119 does not
    fail once [samples[0]] is a channel, so its place after the count does
    not show. *)
Definition analyse_float (m : mcu) (samples : list (list R))
    (sampling_rate : Z) (junk_f junk_m : R) : outcome analysis :=
  first <- first_channel samples ;;
  size <- resampled_data_size_float m (length first) sampling_rate ;;
  merged <- merged_channels samples ;;
  w <- fourier_window_size_float m sampling_rate ;;
  analyse_at m merged sampling_rate size (Float64.to_R w) junk_f junk_m.

(** Lines 151-157: the frequency quantizer. *)
Definition quantize (m : mcu) (frequencies : list R) : outcome (list Z) :=
  lo <- amin frequencies ;;
  hi <- amax frequencies ;;
  bins <- geomspace (lo + 1) hi (length (available_freqs m)) ;;
  bins <- set_item0 bins 0 ;;
  digitize frequencies (rev bins) false.

(** Lines 160-172: the loudness normalizer, with the [--flatten_volume]
    branch. *)
Definition normalize (m : mcu) (flatten_volume : bool) (modules : list R)
    : outcome (list Z) :=
  compressed_range_modules <- traverse (fun v => np_log (v + 1)) modules ;;
  top <- amax compressed_range_modules ;;
  let normalized_modules :=
    map (fun c =>
           astype_int16
             (interp c 0 top 0 (IZR (pwm_duty_cycle_max_value m))))
        compressed_range_modules in
  if flatten_volume then
    levels <- digitize (map IZR normalized_modules) [0; 255] true ;;
    Ok (map (fun l => (l * 255)%Z) levels)
  else Ok normalized_modules.

(** The index [np.digitize(., [0, 255], right=True)] gives an integer. *)
Definition flat_index (z : Z) : Z :=
  if (z <=? 0)%Z then 0 else if (z <=? 255)%Z then 1 else 2.

(** [t] is the maximum across the channels at sample index [i]. *)
Definition channel_max_at (samples : list (list R)) (i : nat) (t : R) : Prop :=
  (exists c, In c samples /\ nth i c 0 = t) /\
  (forall c, In c samples -> nth i c 0 <= t).

(** [main] from the decoded samples to the list [data] it prints. *)
Definition main (m : mcu) (flatten_volume : bool) (samples : list (list R))
    (sampling_rate : Z) (junk_f junk_m : R)
    : outcome (list Encoder.ToneEvent) :=
  a <- analyse m samples sampling_rate junk_f junk_m ;;
  freq_indexes <- quantize m (frequencies a) ;;
  normalized_modules <- normalize m flatten_volume (modules a) ;;
  Encoder.compress_pwm_audio (durations a) freq_indexes normalized_modules.

(** [main] with the window count and the window size computed in
    float64. *)
Definition main_float (m : mcu) (flatten_volume : bool)
    (samples : list (list R)) (sampling_rate : Z) (junk_f junk_m : R)
    : outcome (list Encoder.ToneEvent) :=
  a <- analyse_float m samples sampling_rate junk_f junk_m ;;
  freq_indexes <- quantize m (frequencies a) ;;
  normalized_modules <- normalize m flatten_volume (modules a) ;;
  Encoder.compress_pwm_audio (durations a) freq_indexes normalized_modules.

End Pipeline.

(** ** The table [print_result] writes *)

Module Printer.

Import Ascii String.

(** The characters written to [result.txt]. *)
Definition text : Type := list ascii.

Definition lit (s : string) : text := list_ascii_of_string s.

Definition newline : ascii := "010"%char.

(** The digits of [format(n, "X")], upper case, and of [str(n)]. *)
Fixpoint hex_upper (d : Hexadecimal.uint) : text :=
  match d with
  | Hexadecimal.Nil => []
  | Hexadecimal.D0 d => "0"%char :: hex_upper d
  | Hexadecimal.D1 d => "1"%char :: hex_upper d
  | Hexadecimal.D2 d => "2"%char :: hex_upper d
  | Hexadecimal.D3 d => "3"%char :: hex_upper d
  | Hexadecimal.D4 d => "4"%char :: hex_upper d
  | Hexadecimal.D5 d => "5"%char :: hex_upper d
  | Hexadecimal.D6 d => "6"%char :: hex_upper d
  | Hexadecimal.D7 d => "7"%char :: hex_upper d
  | Hexadecimal.D8 d => "8"%char :: hex_upper d
  | Hexadecimal.D9 d => "9"%char :: hex_upper d
  | Hexadecimal.Da d => "A"%char :: hex_upper d
  | Hexadecimal.Db d => "B"%char :: hex_upper d
  | Hexadecimal.Dc d => "C"%char :: hex_upper d
  | Hexadecimal.Dd d => "D"%char :: hex_upper d
  | Hexadecimal.De d => "E"%char :: hex_upper d
  | Hexadecimal.Df d => "F"%char :: hex_upper d
  end.

Fixpoint decimal (d : Decimal.uint) : text :=
  match d with
  | Decimal.Nil => []
  | Decimal.D0 d => "0"%char :: decimal d
  | Decimal.D1 d => "1"%char :: decimal d
  | Decimal.D2 d => "2"%char :: decimal d
  | Decimal.D3 d => "3"%char :: decimal d
  | Decimal.D4 d => "4"%char :: decimal d
  | Decimal.D5 d => "5"%char :: decimal d
  | Decimal.D6 d => "6"%char :: decimal d
  | Decimal.D7 d => "7"%char :: decimal d
  | Decimal.D8 d => "8"%char :: decimal d
  | Decimal.D9 d => "9"%char :: decimal d
  end.

Definition zero_pad (width : nat) (digits : text) : text :=
  repeat "0"%char (width - List.length digits) ++ digits.

(** The format specification [0<width>X] on an integer: upper-case
    hexadecimal digits, padded with zeros to [width] characters; a minus
    sign comes before the padding and counts in the width. *)
Definition format_X (width : nat) (z : Z) : text :=
  if (z <? 0)%Z
  then "-"%char
       :: zero_pad (width - 1) (hex_upper (N.to_hex_uint (Z.to_N (- z))))
  else zero_pad width (hex_upper (N.to_hex_uint (Z.to_N z))).

(** [{len(data)}] *)
Definition format_len (n : nat) : text := decimal (Nat.to_uint n).

(** [{0x{duration:08X},0x{freq:01X},0x{mod:02X}}] *)
Definition event_text (e : Encoder.ToneEvent) : text :=
  let '(duration, freq, md) := e in
  lit "{0x" ++ format_X 8 duration ++ lit ",0x" ++ format_X 1 freq
  ++ lit ",0x" ++ format_X 2 md ++ lit "}".

(** The loop over [enumerate(data[:-1], start=1)]: every event is followed
    by a comma, every third one also by a line break and four spaces. *)
Fixpoint write_rows (i : nat) (rows : list Encoder.ToneEvent) : text :=
  match rows with
  | [] => []
  | d :: rest =>
      event_text d ++ lit ","
      ++ (if (i mod 3 =? 0)%nat then newline :: lit "    " else [])
      ++ write_rows (S i) rest
  end.

(** What is written after the last event. *)
Definition closing : text := newline :: lit "};".

(** The two lines written before the loop. *)
Definition header (n : nat) : text :=
  lit "int soundDataLen = " ++ format_len n ++ lit ";" ++ [newline]
  ++ lit "int soundData[][3] = {" ++ [newline] ++ lit "    ".

(** [print_result]: the text written to the file, and how the call ends.
    The last write reads [data[-1]], which raises [IndexError] on an empty
    list once the header has been written. *)
Definition print_result (data : list Encoder.ToneEvent)
    : text * outcome unit :=
  let written := header (List.length data) ++ write_rows 1 (removelast data) in
  match data with
  | [] => (written, Raise IndexError)
  | e :: _ =>
      (written ++ event_text (last data e) ++ closing, Ok tt)
  end.

End Printer.

(** ** Reading the table back *)

(** The table is a C initializer: what it holds is read off its text as a
    compiler does, white space skipped, the numbers as decimal and
    hexadecimal literals. *)
Module Reader.

Import Ascii String Printer.

(** The place of [c] among [digits]. *)
Fixpoint position (c : ascii) (digits : text) : option nat :=
  match digits with
  | [] => None
  | d :: rest =>
      if Ascii.eqb c d then Some 0%nat else option_map S (position c rest)
  end.

(** The value of a digit; a character that is no digit has none. *)
Definition hex_value (c : ascii) : option N :=
  option_map N.of_nat (position c (lit "0123456789ABCDEF")).

Definition dec_value (c : ascii) : option nat :=
  position c (lit "0123456789").

(** The number made of the leading digits of [s], and the rest of [s]. *)
Fixpoint read_hex (acc : N) (s : text) : N * text :=
  match s with
  | [] => (acc, [])
  | c :: rest =>
      match hex_value c with
      | Some v => read_hex (16 * acc + v)%N rest
      | None => (acc, s)
      end
  end.

Fixpoint read_dec (acc : nat) (s : text) : nat * text :=
  match s with
  | [] => (acc, [])
  | c :: rest =>
      match dec_value c with
      | Some v => read_dec (10 * acc + v)%nat rest
      | None => (acc, s)
      end
  end.

(** [s] does not go on with a digit. *)
Definition hex_stop (s : text) : Prop :=
  match s with
  | [] => True
  | c :: _ => hex_value c = None
  end.

Definition dec_stop (s : text) : Prop :=
  match s with
  | [] => True
  | c :: _ => dec_value c = None
  end.

(** [s] without the prefix [p], when it starts with it. *)
Fixpoint expect (p s : text) : option text :=
  match p, s with
  | [], _ => Some s
  | c :: p', c' :: s' => if Ascii.eqb c c' then expect p' s' else None
  | _ :: _, [] => None
  end.

Definition blank (c : ascii) : bool :=
  (Ascii.eqb c " " || Ascii.eqb c newline)%char.

Fixpoint skip_blank (s : text) : text :=
  match s with
  | [] => []
  | c :: rest => if blank c then skip_blank rest else s
  end.

Definition read_event (s : text) : option (Encoder.ToneEvent * text) :=
  match expect (lit "{0x") s with
  | None => None
  | Some s =>
      let (duration, s) := read_hex 0 s in
      match expect (lit ",0x") s with
      | None => None
      | Some s =>
          let (freq, s) := read_hex 0 s in
          match expect (lit ",0x") s with
          | None => None
          | Some s =>
              let (md, s) := read_hex 0 s in
              match expect (lit "}") s with
              | None => None
              | Some s => Some ((Z.of_N duration, Z.of_N freq, Z.of_N md), s)
              end
          end
      end
  end.

(** The rows up to the closing [};]. *)
Fixpoint read_events (fuel : nat) (s : text)
    : option (list Encoder.ToneEvent) :=
  match fuel with
  | O => None
  | S fuel =>
      match read_event (skip_blank s) with
      | None => None
      | Some (e, s) =>
          match skip_blank s with
          | c :: s' =>
              if Ascii.eqb c ","%char
              then option_map (cons e) (read_events fuel s')
              else
                match expect (lit "};") (c :: s') with
                | Some [] => Some [e]
                | _ => None
                end
          | [] => None
          end
      end
  end.

(** The whole table: the rows, when there are as many as [soundDataLen]
    declares. *)
Definition read_table (s : text) : option (list Encoder.ToneEvent) :=
  match expect (lit "int soundDataLen = ") s with
  | None => None
  | Some s =>
      let (n, s) := read_dec 0 s in
      match expect (lit ";" ++ [newline] ++ lit "int soundData[][3] = {") s with
      | None => None
      | Some s =>
          match read_events (List.length s) s with
          | Some evs => if (List.length evs =? n)%nat then Some evs else None
          | None => None
          end
      end
  end.

End Reader.

(** ** Notions the properties are stated with *)

(** No two neighbours of a list are equal. *)
Inductive no_adjacent_equal {A : Type} : list A -> Prop :=
| nae_nil : no_adjacent_equal []
| nae_one (a : A) : no_adjacent_equal [a]
| nae_cons (a b : A) (l : list A) :
    a <> b -> no_adjacent_equal (b :: l) -> no_adjacent_equal (a :: b :: l).

(** The head of every run the encoder's loop has opened differs from the
    head of the run before it. *)
Definition heads_differ (st : Encoder.state) : Prop :=
  exists l,
    combine (Encoder.new_frequencies st) (Encoder.new_modules st)
    = l ++ [(Encoder.last_freq st, Encoder.last_module st)] /\
    length (Encoder.new_frequencies st) = length (Encoder.new_modules st) /\
    S (length (Encoder.new_durations st))
    = length (Encoder.new_frequencies st) /\
    no_adjacent_equal (l ++ [(Encoder.last_freq st, Encoder.last_module st)]).

(** The fields of an event are not negative. *)
Definition plain (e : Encoder.ToneEvent) : Prop :=
  (0 <= Encoder.ev_duration e)%Z /\
  (0 <= fst (Encoder.ev_pair e))%Z /\
  (0 <= snd (Encoder.ev_pair e))%Z.

(** * Properties *)

(** Settles the comparisons of reals a goal branches on, from the facts in
    the context. *)
Ltac decide_reals :=
  repeat (match goal with
          | |- context [Rlt_dec ?a ?b] => destruct (Rlt_dec a b)
          | |- context [Rgt_dec ?a ?b] => destruct (Rgt_dec a b)
          | |- context [Rle_dec ?a ?b] => destruct (Rle_dec a b)
          | |- context [Rge_dec ?a ?b] => destruct (Rge_dec a b)
          | |- context [Req_dec_T ?a ?b] => destruct (Req_dec_T a b)
          end; try lra;
          cbn [Numpy.skip_repeated Numpy.never_descends Numpy.never_ascends]).

(** ** The run-length encoder *)

Section EncoderInvariant.

Import Encoder.

Lemma firstn_snoc {A : Type} (l : list A) (j : nat) (x : A) :
  nth_error l j = Some x -> firstn (S j) l = firstn j l ++ [x].
Proof.
  revert j; induction l as [|a l IH]; intros [|j] H; simpl in *; try discriminate.
  - now inversion H.
  - now rewrite (IH j H).
Qed.

Lemma combine_snoc {A B : Type} (l1 : list A) (l2 : list B) (x : A) (y : B) :
  length l1 = length l2 ->
  combine (l1 ++ [x]) (l2 ++ [y]) = combine l1 l2 ++ [(x, y)].
Proof.
  revert l2; induction l1 as [|a l1 IH]; intros [|b l2] H; simpl in *;
    try discriminate; auto.
  f_equal. apply IH. lia.
Qed.

Lemma firstn_length_nth {A : Type} (l : list A) (j : nat) (x : A) :
  nth_error l j = Some x -> length (firstn j l) = j.
Proof.
  intros H. rewrite length_firstn.
  assert (j < length l)%nat by (apply nth_error_Some; congruence). lia.
Qed.

Lemma window_pairs_snoc (frequency modules : list Z) (j : nat) (f m : Z) :
  nth_error frequency j = Some f -> nth_error modules j = Some m ->
  window_pairs (S j) frequency modules
  = window_pairs j frequency modules ++ [(f, m)].
Proof.
  intros Hf Hm. unfold window_pairs.
  rewrite (firstn_snoc _ _ _ Hf), (firstn_snoc _ _ _ Hm).
  apply combine_snoc.
  now rewrite (firstn_length_nth _ _ _ Hf), (firstn_length_nth _ _ _ Hm).
Qed.

Lemma repeat_snoc {A : Type} (x : A) (n : nat) :
  repeat x n ++ [x] = repeat x (S n).
Proof. simpl. symmetry. apply repeat_cons. Qed.

Lemma unfold_runs_snoc (runs : list run) (r : run) :
  unfold_runs (runs ++ [r]) = unfold_runs runs ++ repeat (snd r) (fst r).
Proof.
  unfold unfold_runs. rewrite flat_map_app. simpl. now rewrite app_nil_r.
Qed.

Lemma step_inv (d : Z) (frequency modules : list Z) (j : nat) (st : state)
    (f m : Z) :
  loop_invariant d frequency modules j st ->
  nth_error frequency (S j) = Some f -> nth_error modules (S j) = Some m ->
  exists st',
    step d frequency modules st (S j) = Ok st' /\
    loop_invariant d frequency modules (S j) st'.
Proof.
  intros (runs & c & Hc & Hd & Hf & Hm & Hu & Hlf & Hlm & Hpos & Hz) Hnf Hnm.
  unfold step, index. rewrite Hnf. cbn [bind]. rewrite Hnm. cbn [bind].
  destruct (negb (f =? last_freq st)%Z || negb (m =? last_module st)%Z) eqn:E.
  - eexists; split; [reflexivity|].
    exists (runs ++ [(S c, (last_freq st, last_module st))]), 0%nat.
    cbn [last_freq last_module compressed_chunks new_durations
         new_frequencies new_modules].
    repeat split.
    + rewrite Hd, map_app. simpl. unfold ev_duration, event_of_run. simpl.
      rewrite Hc. do 3 f_equal. lia.
    + rewrite Hf, map_app. reflexivity.
    + rewrite Hm, map_app. reflexivity.
    + cbn [repeat]. rewrite app_nil_r, unfold_runs_snoc. cbn [fst snd].
      rewrite (window_pairs_snoc _ _ _ _ _ Hlf Hlm), <- Hu, <- repeat_snoc, app_assoc.
      reflexivity.
    + assumption.
    + assumption.
    + apply Forall_app; split; [assumption|]. constructor; [simpl; lia|constructor].
  - apply orb_false_elim in E. destruct E as [E1 E2].
    apply negb_false_iff, Z.eqb_eq in E1. apply negb_false_iff, Z.eqb_eq in E2.
    subst f m.
    eexists; split; [reflexivity|].
    exists runs, (S c).
    cbn [last_freq last_module compressed_chunks new_durations
         new_frequencies new_modules].
    repeat split; try assumption.
    + rewrite Hc. lia.
    + rewrite (window_pairs_snoc _ _ _ _ _ Hlf Hlm), <- Hu, <- repeat_snoc, app_assoc.
      reflexivity.
    + intros j' f m Hj Hf' Hm' Hne. inversion Hj; subst j'.
      rewrite Hlf in Hf'. rewrite Hlm in Hm'. simpl in Hne.
      exfalso. apply Hne. congruence.
Qed.

Lemma loop_inv (d : Z) (frequency modules : list Z) (n j : nat) (st : state) :
  loop_invariant d frequency modules j st ->
  (j + n < length frequency)%nat -> (j + n < length modules)%nat ->
  exists st',
    loop d frequency modules (seq (S j) n) st = Ok st' /\
    loop_invariant d frequency modules (j + n) st'.
Proof.
  revert j st; induction n as [|n IH]; intros j st Hinv Hf Hm.
  - exists st. rewrite Nat.add_0_r. now split.
  - destruct (nth_error frequency (S j)) as [f|] eqn:Ef;
      [|apply nth_error_None in Ef; lia].
    destruct (nth_error modules (S j)) as [m|] eqn:Em;
      [|apply nth_error_None in Em; lia].
    destruct (step_inv _ _ _ _ _ _ _ Hinv Ef Em) as (st1 & Hstep & Hinv1).
    destruct (IH (S j) st1 Hinv1) as (st' & Hloop & Hinv'); try lia.
    exists st'. simpl. rewrite Hstep. simpl. split; [exact Hloop|].
    now replace (j + S n)%nat with (S j + n)%nat by lia.
Qed.

End EncoderInvariant.

Section EncoderResult.

Import Encoder.

Lemma zip3_runs (d : Z) (runs : list run) (x lf lm : Z) :
  zip3 (map (fun r => ev_duration (event_of_run d r)) runs ++ [x])
       (map (fun r => fst (snd r)) runs ++ [lf])
       (map (fun r => snd (snd r)) runs ++ [lm])
  = map (event_of_run d) runs ++ [(x, lf, lm)].
Proof.
  unfold zip3. induction runs as [|[k [f m]] runs IH]; simpl; [reflexivity|].
  unfold zip3 in IH. simpl in IH. rewrite IH. reflexivity.
Qed.

(** The shape of the encoder's result: the closed runs, then the event of
    the run that was open when the loop ended. The runs and the open run
    cover all entries but the last one; the open run carries the pair of the
    last entry and counts the entries before it that belong to it. *)
Lemma compress_runs (d : Z) (rest frequency modules : list Z) :
  (length (d :: rest) <= length frequency)%nat ->
  (length (d :: rest) <= length modules)%nat ->
  exists (runs : list run) (c : nat) (lf lm : Z),
    compress_pwm_audio (d :: rest) frequency modules
    = Ok (map (event_of_run d) runs ++ [((d * Z.of_nat c)%Z, lf, lm)]) /\
    unfold_runs runs ++ repeat (lf, lm) c
    = window_pairs (length rest) frequency modules /\
    nth_error frequency (length rest) = Some lf /\
    nth_error modules (length rest) = Some lm /\
    Forall (fun r => (1 <= fst r)%nat) runs /\
    (forall j' f m, length rest = S j' ->
       nth_error frequency j' = Some f -> nth_error modules j' = Some m ->
       (f, m) <> (lf, lm) -> c = 0%nat).
Proof.
  intros Hf Hm. simpl in Hf, Hm.
  destruct frequency as [|f0 fs] eqn:Ef; [simpl in Hf; lia|].
  destruct modules as [|m0 ms] eqn:Em; [simpl in Hm; lia|].
  rewrite <- Ef, <- Em in *.
  set (st0 := {| last_freq := f0; last_module := m0; compressed_chunks := 0;
                 new_durations := []; new_frequencies := [f0];
                 new_modules := [m0] |}).
  assert (H0 : loop_invariant d frequency modules 0 st0).
  { exists [], 0%nat. subst st0 frequency modules. simpl.
    repeat split; auto; intros; discriminate. }
  destruct (loop_inv d frequency modules (length rest) 0 st0 H0)
    as (st & Hloop & Hinv); [simpl; lia|simpl; lia|].
  simpl in Hinv.
  destruct Hinv as (runs & c & Hc & Hd & Hnf & Hnm & Hu & Hlf & Hlm & Hpos & Hz).
  exists runs, c, (last_freq st), (last_module st).
  split; [|repeat split; assumption].
  unfold compress_pwm_audio, index.
  replace (nth_error (d :: rest) 0) with (Some d) by reflexivity.
  replace (nth_error frequency 0) with (Some f0) by (now subst frequency).
  replace (nth_error modules 0) with (Some m0) by (now subst modules).
  cbn [bind]. replace (length (d :: rest) - 1)%nat with (length rest) by (simpl; lia).
  fold st0. rewrite Hloop. cbn [bind].
  rewrite Hd, Hnf, Hnm, Hc. now rewrite zip3_runs.
Qed.

Lemma total_duration_app (l1 l2 : list ToneEvent) :
  total_duration (l1 ++ l2) = (total_duration l1 + total_duration l2)%Z.
Proof.
  unfold total_duration. induction l1 as [|e l1 IH]; simpl; [reflexivity|].
  rewrite IH. lia.
Qed.

Lemma total_duration_runs (d : Z) (runs : list run) :
  total_duration (map (event_of_run d) runs)
  = (d * Z.of_nat (length (unfold_runs runs)))%Z.
Proof.
  unfold total_duration, unfold_runs.
  induction runs as [|[k p] runs IH]; simpl; [lia|].
  rewrite IH, length_app, repeat_length. unfold ev_duration. simpl. lia.
Qed.

Lemma expand_app (b : Z) (l1 l2 : list ToneEvent) :
  expand b (l1 ++ l2) = expand b l1 ++ expand b l2.
Proof. unfold expand. apply flat_map_app. Qed.

Lemma expand_runs (d : Z) (runs : list run) :
  d <> 0%Z -> expand d (map (event_of_run d) runs) = unfold_runs runs.
Proof.
  intros Hd. unfold expand, unfold_runs.
  induction runs as [|[k [f m]] runs IH]; simpl; [reflexivity|].
  rewrite IH. unfold ev_duration, ev_pair. simpl.
  rewrite Z.mul_comm, Z.div_mul, Nat2Z.id by assumption. reflexivity.
Qed.

Lemma window_pairs_length (n : nat) (frequency modules : list Z) :
  (n <= length frequency)%nat -> (n <= length modules)%nat ->
  length (window_pairs n frequency modules) = n.
Proof.
  intros Hf Hm. unfold window_pairs.
  rewrite length_combine, !length_firstn. lia.
Qed.

Lemma window_pairs_removelast (n : nat) (frequency modules : list Z) :
  (S n <= length frequency)%nat -> (S n <= length modules)%nat ->
  removelast (window_pairs (S n) frequency modules)
  = window_pairs n frequency modules.
Proof.
  intros Hf Hm.
  destruct (nth_error frequency n) as [f|] eqn:Ef;
    [|apply nth_error_None in Ef; lia].
  destruct (nth_error modules n) as [m|] eqn:Em;
    [|apply nth_error_None in Em; lia].
  rewrite (window_pairs_snoc _ _ _ _ _ Ef Em). apply removelast_last.
Qed.

(** The durations add up to the base duration times the number of entries
    after the first. *)
Lemma compress_total (d : Z) (rest frequency modules : list Z) :
  (length (d :: rest) <= length frequency)%nat ->
  (length (d :: rest) <= length modules)%nat ->
  exists evs,
    compress_pwm_audio (d :: rest) frequency modules = Ok evs /\
    total_duration evs = (Z.of_nat (length rest) * d)%Z.
Proof.
  intros Hf Hm.
  destruct (compress_runs d rest frequency modules Hf Hm)
    as (runs & c & lf & lm & Hres & Hu & _).
  eexists; split; [exact Hres|].
  rewrite total_duration_app, total_duration_runs.
  apply (f_equal (@length _)) in Hu.
  rewrite length_app, repeat_length, window_pairs_length in Hu
    by (simpl in Hf, Hm; lia).
  rewrite <- Hu, Nat2Z.inj_add.
  unfold total_duration, ev_duration. cbn [fold_right fst]. ring.
Qed.

(** The events expand to the pairs of all entries but the last, and the
    first event is at least one base duration long when there are two
    entries or more. *)
Lemma compress_expansion (d : Z) (rest frequency modules : list Z) :
  (0 < d)%Z ->
  (length (d :: rest) <= length frequency)%nat ->
  (length (d :: rest) <= length modules)%nat ->
  exists evs,
    compress_pwm_audio (d :: rest) frequency modules = Ok evs /\
    expand d evs = window_pairs (length rest) frequency modules /\
    ((1 <= length rest)%nat ->
     exists e tl, evs = e :: tl /\ (d <= ev_duration e)%Z).
Proof.
  intros Hpos Hf Hm.
  destruct (compress_runs d rest frequency modules Hf Hm)
    as (runs & c & lf & lm & Hres & Hu & _ & _ & Hk & _).
  eexists; split; [exact Hres|]. simpl in Hf, Hm. split.
  - rewrite expand_app, expand_runs by lia. rewrite <- Hu. f_equal.
    unfold expand, ev_duration, ev_pair. simpl.
    rewrite Z.mul_comm, Z.div_mul, Nat2Z.id, app_nil_r by lia. reflexivity.
  - intros H1. destruct runs as [|[k p] runs].
    + simpl in Hu. apply (f_equal (@length _)) in Hu.
      rewrite repeat_length, window_pairs_length in Hu by lia.
      eexists; eexists; split; [reflexivity|]. unfold ev_duration. simpl. nia.
    + inversion Hk as [|? ? Hk1 _]; subst. simpl in Hk1.
      eexists; eexists; split; [reflexivity|].
      unfold ev_duration, event_of_run. simpl. nia.
Qed.

End EncoderResult.

Section EncoderClaims.

Import Encoder.

(** C1 (as stated) fails: on three windows of nominal duration 1000 the
    encoder returns events whose durations sum to 2000, not to 3 * 1000. *)
Lemma compress_total_not_all_windows :
  compress_pwm_audio [1000; 1000; 1000]%Z [2; 2; 5]%Z [9; 9; 9]%Z
  = Ok [(2000, 2, 9); (0, 5, 9)]%Z /\
  total_duration [(2000, 2, 9); (0, 5, 9)]%Z
  <> (Z.of_nat (length [1000; 1000; 1000]%Z) * 1000)%Z.
Proof. split; [reflexivity|]. vm_compute. discriminate. Qed.

(** C1 (amended): for every input of M >= 1 entries (with a bucket and a
    level for each), the encoder returns, and the durations of its events
    sum to (M - 1) * baseDuration, baseDuration being the first entry of
    [duration]: the last entry adds no time. *)
Theorem compress_total_duration (duration frequency modules : list Z) (d : Z) :
  nth_error duration 0 = Some d ->
  (length duration <= length frequency)%nat ->
  (length duration <= length modules)%nat ->
  exists evs,
    compress_pwm_audio duration frequency modules = Ok evs /\
    total_duration evs = ((Z.of_nat (length duration) - 1) * d)%Z.
Proof.
  intros Hd Hf Hm. destruct duration as [|d' rest]; [discriminate|].
  simpl in Hd. inversion Hd; subst d'.
  destruct (compress_total d rest frequency modules Hf Hm) as (evs & He & Ht).
  exists evs. split; [exact He|]. rewrite Ht. simpl length. lia.
Qed.

Lemma compress_total_duration_witness :
  exists evs,
    compress_pwm_audio [1000; 1000; 1000]%Z [2; 2; 5]%Z [9; 9; 9]%Z = Ok evs /\
    total_duration evs
    = ((Z.of_nat (length [1000; 1000; 1000]%Z) - 1) * 1000)%Z.
Proof.
  apply (compress_total_duration [1000; 1000; 1000]%Z [2; 2; 5]%Z [9; 9; 9]%Z
           1000%Z); [reflexivity | simpl; lia | simpl; lia].
Defined.

(** C2 (as stated) fails: the expansion of the events of three windows
    gives back two pairs only, and a single window yields one event of
    length zero, which expands to nothing. *)
Lemma compress_expand_loses_last_window :
  (compress_pwm_audio [1000; 1000; 1000]%Z [2; 2; 5]%Z [9; 9; 9]%Z
   = Ok [(2000, 2, 9); (0, 5, 9)]%Z /\
   expand 1000 [(2000, 2, 9); (0, 5, 9)]%Z
   <> window_pairs 3 [2; 2; 5]%Z [9; 9; 9]%Z) /\
  (compress_pwm_audio [1000]%Z [3]%Z [7]%Z = Ok [(0, 3, 7)]%Z /\
   expand 1000 [(0, 3, 7)]%Z <> window_pairs 1 [3]%Z [7]%Z).
Proof.
  split; (split; [reflexivity|]); vm_compute; discriminate.
Qed.

(** C2 (amended): for every input of M >= 1 entries and a positive
    baseDuration, expanding each event into duration / baseDuration copies
    of its (bucket, level) pair gives the per-entry pair sequence without
    its last entry; when M >= 2 the first event is not of length zero (its
    duration is at least baseDuration). *)
Theorem compress_expand (duration frequency modules : list Z) (d : Z) :
  nth_error duration 0 = Some d ->
  (0 < d)%Z ->
  (length duration <= length frequency)%nat ->
  (length duration <= length modules)%nat ->
  exists evs,
    compress_pwm_audio duration frequency modules = Ok evs /\
    expand d evs
    = removelast (window_pairs (length duration) frequency modules) /\
    ((2 <= length duration)%nat ->
     exists e rest, evs = e :: rest /\ (d <= ev_duration e)%Z).
Proof.
  intros Hd Hpos Hf Hm. destruct duration as [|d' rest]; [discriminate|].
  simpl in Hd. inversion Hd; subst d'.
  destruct (compress_expansion d rest frequency modules Hpos Hf Hm)
    as (evs & He & Hx & Hfirst).
  exists evs. split; [exact He|]. simpl in Hf, Hm. simpl length. split.
  - now rewrite window_pairs_removelast by lia.
  - intros H2. apply Hfirst. lia.
Qed.

Lemma compress_expand_witness :
  exists evs,
    compress_pwm_audio [1000; 1000; 1000]%Z [2; 2; 5]%Z [9; 9; 9]%Z = Ok evs /\
    expand 1000 evs
    = removelast (window_pairs (length [1000; 1000; 1000]%Z)
                    [2; 2; 5]%Z [9; 9; 9]%Z) /\
    ((2 <= length [1000; 1000; 1000]%Z)%nat ->
     exists e rest, evs = e :: rest /\ (1000 <= ev_duration e)%Z).
Proof.
  apply (compress_expand [1000; 1000; 1000]%Z [2; 2; 5]%Z [9; 9; 9]%Z 1000%Z);
    [reflexivity | lia | simpl; lia | simpl; lia].
Defined.

(** C10: for every input of two or more entries whose last (bucket, level)
    pair differs from the pair before it, the encoder returns, and the
    final event has duration 0 and carries the last entry's pair. *)
Theorem compress_trailing_zero_event
    (duration frequency modules : list Z) (n : nat) (f1 m1 f2 m2 : Z) :
  length duration = S (S n) ->
  nth_error frequency n = Some f1 -> nth_error modules n = Some m1 ->
  nth_error frequency (S n) = Some f2 -> nth_error modules (S n) = Some m2 ->
  (f1, m1) <> (f2, m2) ->
  exists front,
    compress_pwm_audio duration frequency modules
    = Ok (front ++ [(0, f2, m2)%Z]).
Proof.
  intros Hlen Hf1 Hm1 Hf2 Hm2 Hne.
  destruct duration as [|d rest]; [discriminate|].
  simpl in Hlen. inversion Hlen as [Hrest].
  assert (Hf : (S n < length frequency)%nat)
    by (apply nth_error_Some; congruence).
  assert (Hm : (S n < length modules)%nat)
    by (apply nth_error_Some; congruence).
  destruct (compress_runs d rest frequency modules)
    as (runs & c & lf & lm & Hres & _ & Hlf & Hlm & _ & Hz);
    [simpl; lia | simpl; lia |].
  rewrite Hrest in Hlf, Hlm. rewrite Hf2 in Hlf. rewrite Hm2 in Hlm.
  inversion Hlf; inversion Hlm; subst lf lm.
  rewrite (Hz n f1 m1 Hrest Hf1 Hm1 Hne) in Hres.
  exists (map (event_of_run d) runs). rewrite Hres.
  now rewrite Z.mul_0_r.
Qed.

Lemma compress_trailing_zero_event_witness :
  exists front,
    compress_pwm_audio [1000; 1000; 1000]%Z [2; 2; 5]%Z [9; 9; 9]%Z
    = Ok (front ++ [(0, 5, 9)%Z]).
Proof.
  apply (compress_trailing_zero_event [1000; 1000; 1000]%Z [2; 2; 5]%Z
           [9; 9; 9]%Z 1 2%Z 9%Z 5%Z 9%Z);
    try reflexivity. intros H; discriminate H.
Defined.

End EncoderClaims.

(** ** Channel reduction *)

Section ChannelReducer.

Import Numpy Pipeline.
Local Open Scope R_scope.

Lemma zip_with_length {A B C : Type} (f : A -> B -> C) (l1 : list A) (l2 : list B) :
  length (zip_with f l1 l2) = Nat.min (length l1) (length l2).
Proof.
  revert l2; induction l1 as [|a l1 IH]; intros [|b l2]; simpl; auto.
Qed.

Lemma zip_with_nth (f : R -> R -> R) (l1 l2 : list R) (i : nat) :
  (i < length l1)%nat -> (i < length l2)%nat ->
  nth i (zip_with f l1 l2) 0 = f (nth i l1 0) (nth i l2 0).
Proof.
  revert l2 i; induction l1 as [|a l1 IH]; intros [|b l2] [|i] H1 H2;
    simpl in *; try lia; auto.
  apply IH; lia.
Qed.

Lemma fold_zip_max (S : nat) (cs : list (list R)) (acc : list R) :
  length acc = S -> Forall (fun c => length c = S) cs ->
  length (fold_left (zip_with Rmax) cs acc) = S /\
  forall i, (i < S)%nat ->
    let v := nth i (fold_left (zip_with Rmax) cs acc) 0 in
    (v = nth i acc 0 \/ exists c, In c cs /\ nth i c 0 = v) /\
    nth i acc 0 <= v /\
    (forall c, In c cs -> nth i c 0 <= v).
Proof.
  intros Hacc Hcs. revert acc Hacc.
  induction Hcs as [|c cs Hc Hcs IH]; intros acc Hacc; simpl.
  - split; [assumption|]. intros i Hi. repeat split; auto; try lra.
    intros c [].
  - assert (Hz : length (zip_with Rmax acc c) = S)
      by (rewrite zip_with_length; lia).
    destruct (IH _ Hz) as [Hlen Hnth]. split; [assumption|].
    intros i Hi. specialize (Hnth i Hi). simpl in Hnth.
    rewrite zip_with_nth in Hnth by lia.
    destruct Hnth as (Hmem & Hge & Hub).
    pose proof (Rmax_l (nth i acc 0) (nth i c 0)) as Hl.
    pose proof (Rmax_r (nth i acc 0) (nth i c 0)) as Hr.
    repeat split.
    + destruct Hmem as [Hv | (c' & Hin & Hv)].
      * rewrite Hv. unfold Rmax. destruct (Rle_dec (nth i acc 0) (nth i c 0)).
        -- right. exists c. split; [now left | reflexivity].
        -- now left.
      * right. exists c'. split; [now right | assumption].
    + lra.
    + intros c' [<- | Hin]; [lra | now apply Hub].
Qed.

Lemma merged_channels_spec (samples : list (list R)) (S : nat) :
  samples <> [] -> Forall (fun c => length c = S) samples ->
  exists merged,
    merged_channels samples = Ok merged /\
    length merged = S /\
    forall i, (i < S)%nat ->
      exists t, channel_max_at samples i t /\ nth i merged 0 = Rmax t 0.
Proof.
  intros Hne Hall. destruct samples as [|c cs]; [contradiction|].
  inversion Hall as [|? ? Hc Hcs]; subst.
  destruct (fold_zip_max (length c) cs c eq_refl Hcs) as [Hlen Hnth].
  eexists. split; [reflexivity|]. unfold maximum. split.
  - rewrite zip_with_length, Hlen, repeat_length. apply Nat.min_id.
  - intros i Hi. specialize (Hnth i Hi). simpl in Hnth.
    destruct Hnth as (Hmem & Hge & Hub).
    exists (nth i (fold_left (zip_with Rmax) cs c) 0). split.
    + split.
      * destruct Hmem as [Hv | (c' & Hin & Hv)].
        -- exists c. split; [now left | now symmetry].
        -- exists c'. split; [now right | assumption].
      * intros c' [<- | Hin]; [assumption | now apply Hub].
    + rewrite zip_with_nth by (rewrite ?Hlen, ?repeat_length; lia).
      now rewrite nth_repeat.
Qed.

Lemma channel_max_at_unique (samples : list (list R)) (i : nat) (t1 t2 : R) :
  channel_max_at samples i t1 -> channel_max_at samples i t2 -> t1 = t2.
Proof.
  intros [(c1 & Hin1 & H1) Hub1] [(c2 & Hin2 & H2) Hub2].
  specialize (Hub1 c2 Hin2). specialize (Hub2 c1 Hin1). lra.
Qed.

Lemma channel_max_at_perm (samples samples' : list (list R)) (i : nat) (t : R) :
  Permutation samples samples' ->
  channel_max_at samples i t -> channel_max_at samples' i t.
Proof.
  intros Hp [(c & Hin & Hc) Hub]. split.
  - exists c. split; [now apply (Permutation_in _ Hp) | assumption].
  - intros c' Hin'. apply Hub. now apply (Permutation_in _ (Permutation_sym Hp)).
Qed.

(** C9: for a waveform of at least one channel, all channels of the same
    length S, the merged signal is the same for every order of the
    channels; it has S values, the value at each sample index is the
    maximum across the channels clamped below at zero, and every value
    is >= 0. *)
Theorem merged_channels_permutation (samples samples' : list (list R)) (S : nat) :
  samples <> [] ->
  Forall (fun c => length c = S) samples ->
  Permutation samples samples' ->
  exists merged,
    merged_channels samples = Ok merged /\
    merged_channels samples' = Ok merged /\
    length merged = S /\
    (forall i, (i < S)%nat ->
       exists t, channel_max_at samples i t /\ nth i merged 0 = Rmax t 0) /\
    Forall (fun v => 0 <= v) merged.
Proof.
  intros Hne Hall Hp.
  assert (Hne' : samples' <> []).
  { intros ->. apply Permutation_sym, Permutation_nil in Hp. contradiction. }
  assert (Hall' : Forall (fun c => length c = S) samples').
  { rewrite Forall_forall in *. intros c Hin. apply Hall.
    now apply (Permutation_in _ (Permutation_sym Hp)). }
  destruct (merged_channels_spec samples S Hne Hall) as (mg & He & Hl & Hn).
  destruct (merged_channels_spec samples' S Hne' Hall') as (mg' & He' & Hl' & Hn').
  assert (Heq : mg' = mg).
  { apply (nth_ext _ _ 0 0); [congruence|]. intros i Hi. rewrite Hl' in Hi.
    destruct (Hn i Hi) as (t & Ht & Hv). destruct (Hn' i Hi) as (t' & Ht' & Hv').
    rewrite Hv, Hv'. f_equal.
    apply (channel_max_at_unique samples' i); [assumption|].
    now apply (channel_max_at_perm samples). }
  subst mg'. exists mg. repeat split; try assumption.
  apply Forall_forall. intros v Hin.
  destruct (In_nth _ _ 0 Hin) as (i & Hi & <-). rewrite Hl in Hi.
  destruct (Hn i Hi) as (t & _ & ->). apply Rmax_r.
Qed.

Lemma merged_channels_permutation_witness :
  exists merged,
    merged_channels [[1; -2]; [-3; -1]] = Ok merged /\
    merged_channels [[-3; -1]; [1; -2]] = Ok merged /\
    length merged = 2%nat /\
    (forall i, (i < 2)%nat ->
       exists t, channel_max_at [[1; -2]; [-3; -1]] i t /\
                 nth i merged 0 = Rmax t 0) /\
    Forall (fun v => 0 <= v) merged.
Proof.
  apply (merged_channels_permutation [[1; -2]; [-3; -1]] [[-3; -1]; [1; -2]] 2).
  - discriminate.
  - repeat constructor.
  - apply perm_swap.
Defined.

End ChannelReducer.

(** ** Windowing *)

Section Windowing.

Import Numpy Pipeline.

Lemma split_at_sizes_length {A : Type} (sizes : list nat) (l : list A) :
  length (split_at_sizes sizes l) = length sizes.
Proof. revert l; induction sizes as [|s sizes IH]; intros l; simpl; auto. Qed.

Lemma split_at_sizes_concat {A : Type} (sizes : list nat) (l : list A) :
  list_sum sizes = length l -> concat (split_at_sizes sizes l) = l.
Proof.
  revert l; induction sizes as [|s sizes IH]; intros l H; simpl in *.
  - destruct l; [reflexivity | discriminate].
  - rewrite IH; [apply firstn_skipn|]. rewrite length_skipn. lia.
Qed.

Lemma split_at_sizes_lengths {A : Type} (sizes : list nat) (l : list A) :
  (list_sum sizes <= length l)%nat ->
  map (@length A) (split_at_sizes sizes l) = sizes.
Proof.
  revert l; induction sizes as [|s sizes IH]; intros l H; simpl in *; auto.
  rewrite length_firstn, IH by (rewrite length_skipn; lia). f_equal. lia.
Qed.

Lemma list_sum_repeat (x n : nat) : list_sum (repeat x n) = (n * x)%nat.
Proof. induction n; simpl; lia. Qed.

Lemma section_sizes_sum (total n : nat) :
  (0 < n)%nat -> list_sum (section_sizes total n) = total.
Proof.
  intros Hn. unfold section_sizes. rewrite list_sum_app, !list_sum_repeat.
  pose proof (Nat.div_mod_eq total n) as Hdm.
  pose proof (Nat.mod_upper_bound total n ltac:(lia)) as Hlt.
  nia.
Qed.

Lemma section_sizes_length (total n : nat) :
  (0 < n)%nat -> length (section_sizes total n) = n.
Proof.
  intros Hn. unfold section_sizes. rewrite length_app, !repeat_length.
  pose proof (Nat.mod_upper_bound total n ltac:(lia)). lia.
Qed.

Lemma section_sizes_in (total n s : nat) :
  In s (section_sizes total n) ->
  s = (total / n)%nat \/ s = S (total / n).
Proof.
  unfold section_sizes. intros H. apply in_app_or in H.
  destruct H as [H | H]; apply repeat_spec in H; auto.
Qed.

(** [np.array_split(ary, n)] for [n >= 1]: [n] contiguous chunks that
    make up [ary], each of [len(ary) // n] or [len(ary) // n + 1]
    elements. *)
Lemma array_split_spec {A : Type} (ary : list A) (n : Z) :
  (0 < n)%Z ->
  exists chunks,
    array_split ary n = Ok chunks /\
    length chunks = Z.to_nat n /\
    concat chunks = ary /\
    (forall c, In c chunks ->
       length c = (length ary / Z.to_nat n)%nat \/
       length c = S (length ary / Z.to_nat n)).
Proof.
  intros Hn. unfold array_split.
  destruct (n <=? 0)%Z eqn:E; [apply Z.leb_le in E; lia|].
  assert (Hpos : (0 < Z.to_nat n)%nat) by lia.
  eexists. split; [reflexivity|]. repeat split.
  - now rewrite split_at_sizes_length, section_sizes_length.
  - apply split_at_sizes_concat. now apply section_sizes_sum.
  - intros c Hin. apply (section_sizes_in (length ary) (Z.to_nat n)).
    rewrite <- (split_at_sizes_lengths (section_sizes (length ary) (Z.to_nat n)) ary)
      by (rewrite section_sizes_sum; auto).
    now apply in_map.
Qed.

Lemma array_split_ok_pos {A : Type} (ary : list A) (n : Z) (chunks : list (list A)) :
  array_split ary n = Ok chunks -> (0 < n)%Z.
Proof.
  unfold array_split. destruct (n <=? 0)%Z eqn:E; [discriminate|].
  intros _. apply Z.leb_gt in E. lia.
Qed.

Lemma traverse_ok {A B : Type} (f : A -> outcome B) (l : list A) (r : list B) :
  traverse f l = Ok r -> Forall2 (fun x y => f x = Ok y) l r.
Proof.
  revert r; induction l as [|x l IH]; intros r H; simpl in H.
  - inversion H. constructor.
  - destruct (f x) as [y| |] eqn:Ef; simpl in H; try discriminate.
    destruct (traverse f l) as [ys| |]; simpl in H; try discriminate.
    inversion H; subst. constructor; auto.
Qed.

Lemma bind_ok {A B : Type} (c : outcome A) (k : A -> outcome B) (b : B) :
  bind c k = Ok b -> exists a, c = Ok a /\ k a = Ok b.
Proof. destruct c; simpl; intros H; try discriminate. eauto. Qed.

Lemma Ok_inj {A : Type} (x y : A) : Ok x = Ok y -> x = y.
Proof. congruence. Qed.

Lemma Some_inj {A : Type} (x y : A) : Some x = Some y -> x = y.
Proof. congruence. Qed.


(** *** Evaluation of the numeric operations at simple arguments *)

Local Open Scope R_scope.

Lemma py_round_IZR (x : R) (z : Z) : x = IZR z -> py_round x = z.
Proof.
  intros ->. unfold py_round. rewrite ZfloorZ.
  destruct (Rlt_dec (IZR z - IZR z) (1 / 2)) as [_|H]; [reflexivity|].
  exfalso. apply H. lra.
Qed.

Lemma trunc_IZR (x : R) (z : Z) : x = IZR z -> trunc x = z.
Proof.
  intros ->. unfold trunc, Zceil.
  destruct (Rle_dec 0 (IZR z)); [apply ZfloorZ|].
  rewrite <- opp_IZR, ZfloorZ. lia.
Qed.

Lemma astype_int16_IZR (x : R) (z : Z) :
  x = IZR z -> (-32768 <= z < 32768)%Z -> astype_int16 x = z.
Proof.
  intros Hx Hz. unfold astype_int16, wrap_int16. rewrite (trunc_IZR x z Hx).
  rewrite Z.mod_small by lia. lia.
Qed.

Lemma Rmax_same (x : R) : Rmax x x = x.
Proof. unfold Rmax. now destruct (Rle_dec x x). Qed.

Lemma Rmin_same (x : R) : Rmin x x = x.
Proof. unfold Rmin. now destruct (Rle_dec x x). Qed.

Lemma fold_left_Rmax_repeat (c : R) (n : nat) :
  fold_left Rmax (repeat c n) c = c.
Proof. induction n; simpl; [reflexivity|]. now rewrite Rmax_same. Qed.

Lemma fold_left_Rmin_repeat (c : R) (n : nat) :
  fold_left Rmin (repeat c n) c = c.
Proof. induction n; simpl; [reflexivity|]. now rewrite Rmin_same. Qed.

Lemma argmax_from_repeat (c : R) (b i n : nat) :
  argmax_from c b i (repeat c n) = b.
Proof.
  revert i; induction n as [|n IH]; intros i; simpl; [reflexivity|].
  destruct (Rlt_dec c c); [lra | apply IH].
Qed.

Lemma map_constant {A B : Type} (f : A -> B) (c : B) (l : list A) :
  Forall (fun x => f x = c) l -> map f l = repeat c (length l).
Proof. induction 1; simpl; congruence. Qed.

Lemma all_equal_repeat {A : Type} (c : A) (l : list A) :
  Forall (fun x => x = c) l -> l = repeat c (length l).
Proof. induction 1; simpl; congruence. Qed.

Lemma weighted_sum_zero (g : nat -> R) (n : nat) (xs : list R) :
  Forall (fun x => x = 0) xs -> weighted_sum g n xs = 0.
Proof.
  intros H. revert n. induction H as [|x xs Hx _ IH]; intros n; simpl.
  - reflexivity.
  - rewrite IH, Hx. ring.
Qed.

Lemma np_abs_zero (z : complex) : fst z = 0 -> snd z = 0 -> np_abs z = 0.
Proof.
  intros H1 H2. unfold np_abs. rewrite H1, H2, Rsqr_0, Rplus_0_r. apply sqrt_0.
Qed.

(** The transform of a silent chunk has modulus 0 in every bin. *)
Lemma fft_silent (x : list R) :
  x <> [] -> Forall (fun v => v = 0) x ->
  exists data,
    fft x = Ok data /\ map np_abs data = repeat 0 (length x).
Proof.
  intros Hne Hz. destruct x as [|v x]; [contradiction|].
  eexists. split; [reflexivity|].
  rewrite map_map.
  transitivity (repeat 0 (length (seq 0 (length (v :: x)))));
    [|now rewrite length_seq].
  apply map_constant. apply Forall_forall. intros k _.
  apply np_abs_zero; cbn [fst snd]; now apply weighted_sum_zero.
Qed.

Lemma fftfreq_first (n : Z) (d : R) :
  IZR n * d <> 0 -> (0 <= n)%Z ->
  exists freqs rest, fftfreq n d = Ok freqs /\ freqs = 0 :: rest.
Proof.
  intros Hnd Hn. unfold fftfreq.
  destruct (Req_dec_T (IZR n * d) 0) as [E|_]; [contradiction|].
  destruct (n <? 0)%Z eqn:E; [apply Z.ltb_lt in E; lia|].
  assert (Hn1 : (1 <= n)%Z).
  { destruct (Z.eq_dec n 0) as [->|]; [|lia]. exfalso. apply Hnd. lra. }
  assert (HN : (0 < (n - 1) / 2 + 1)%Z).
  { pose proof (Z.div_pos (n - 1) 2). lia. }
  unfold zrange at 1.
  destruct (Z.to_nat ((n - 1) / 2 + 1 - 0)) as [|k] eqn:Ek; [lia|].
  simpl seq. simpl map at 2. cbn [app map].
  eexists; eexists; split; [reflexivity|]. f_equal. simpl. lra.
Qed.

(** A silent chunk has dominant frequency 0 and magnitude 0 whenever
    [get_dominant_freq_and_module] returns. *)
Lemma get_dominant_silent (chunk : list R) (sampling_rate : Z) (w : R) :
  chunk <> [] -> Forall (fun v => v = 0) chunk ->
  IZR (py_round w) * (1 / IZR sampling_rate) <> 0 ->
  (0 <= py_round w)%Z ->
  get_dominant_freq_and_module chunk sampling_rate w = Ok (0, 0).
Proof.
  intros Hne Hz Hnd Hn. unfold get_dominant_freq_and_module.
  destruct (fft_silent chunk Hne Hz) as (data & -> & Habs). cbn [bind].
  destruct (fftfreq_first _ _ Hnd Hn) as (freqs & rest & -> & ->). cbn [bind].
  rewrite Habs. destruct chunk as [|v chunk]; [contradiction|].
  simpl length. simpl repeat. unfold amax, argmax. cbn [bind].
  rewrite argmax_from_repeat, fold_left_Rmax_repeat. reflexivity.
Qed.

Lemma get_dominant_silent_ok (chunk : list R) (sampling_rate : Z) (w : R)
    (r : R * R) :
  Forall (fun v => v = 0) chunk ->
  get_dominant_freq_and_module chunk sampling_rate w = Ok r -> r = (0, 0).
Proof.
  intros Hz Hr.
  assert (Hne : chunk <> []).
  { intros ->. discriminate Hr. }
  destruct (Req_dec_T (IZR (py_round w) * (1 / IZR sampling_rate)) 0) as [E|E].
  - unfold get_dominant_freq_and_module in Hr.
    destruct (fft_silent chunk Hne Hz) as (data & Hd & _).
    rewrite Hd in Hr. cbn [bind] in Hr. unfold fftfreq in Hr.
    destruct (Req_dec_T (IZR (py_round w) * (1 / IZR sampling_rate)) 0);
      [discriminate | contradiction].
  - destruct (Z_lt_le_dec (py_round w) 0) as [Hneg|Hpos].
    + unfold get_dominant_freq_and_module in Hr.
      destruct (fft_silent chunk Hne Hz) as (data & Hd & _).
      rewrite Hd in Hr. cbn [bind] in Hr. unfold fftfreq in Hr.
      destruct (Req_dec_T (IZR (py_round w) * (1 / IZR sampling_rate)) 0);
        [contradiction|].
      apply Z.ltb_lt in Hneg. rewrite Hneg in Hr. discriminate.
    + rewrite (get_dominant_silent chunk sampling_rate w Hne Hz E Hpos) in Hr.
      now inversion Hr.
Qed.

(** *** A stereo recording of one silent sample at 10 kHz, through [analyse] *)

Lemma resampled_one_sample : resampled_data_size ATmega328P 1 10000 = 1%Z.
Proof.
  unfold resampled_data_size. apply py_round_IZR.
  cbn [playback_sampling_rate ATmega328P INR]. lra.
Qed.

Lemma default_duration_ATmega328P :
  astype_int16 (1 / IZR (playback_sampling_rate ATmega328P) * 10000000)
  = 1000%Z.
Proof.
  apply astype_int16_IZR; [|lia].
  cbn [playback_sampling_rate ATmega328P]. lra.
Qed.

Lemma merged_one_silent_sample : merged_channels [[0]; [0]] = Ok [0].
Proof.
  unfold merged_channels, amax_axis0, maximum.
  cbn [index nth_error bind fold_left length repeat zip_with].
  now rewrite !Rmax_same.
Qed.

(** The one window of the recording, for a window size of 1. *)
Lemma analyse_at_one_silent_sample (w junk_f junk_m : R) :
  w = 1 ->
  analyse_at ATmega328P [0] 10000 1 w junk_f junk_m
  = Ok {| durations := [1000; 1000]%Z;
          frequencies := [0; junk_f];
          modules := [0; junk_m] |}.
Proof.
  intros ->. unfold analyse_at.
  rewrite default_duration_ATmega328P.
  change (array_split [0] 1) with (Ok [[0]]). cbn [bind traverse].
  rewrite get_dominant_silent.
  - reflexivity.
  - discriminate.
  - repeat constructor.
  - rewrite (py_round_IZR _ 1); lra.
  - rewrite (py_round_IZR _ 1); [lia | lra].
Qed.

Lemma analyse_one_silent_sample (junk_f junk_m : R) :
  analyse ATmega328P [[0]; [0]] 10000 junk_f junk_m
  = Ok {| durations := [1000; 1000]%Z;
          frequencies := [0; junk_f];
          modules := [0; junk_m] |}.
Proof.
  unfold analyse. cbn [first_channel bind length].
  change (10000 =? 0)%Z with false. cbv iota.
  rewrite merged_one_silent_sample. cbn [bind].
  rewrite resampled_one_sample.
  apply analyse_at_one_silent_sample.
  cbn [playback_sampling_rate ATmega328P]. lra.
Qed.

(** The same recording with the count and the window size in float64. *)
Lemma resampled_float_one_sample :
  resampled_data_size_float ATmega328P 1 10000 = Ok 1%Z.
Proof. reflexivity. Qed.

Lemma window_size_float_10kHz :
  fourier_window_size_float ATmega328P 10000
  = Ok (4503599627370496, -52)%Z /\
  Float64.to_R (4503599627370496, -52)%Z = 1.
Proof.
  split; [reflexivity|].
  unfold Float64.to_R. cbn [fst snd]. unfold powerRZ.
  replace (2 ^ Pos.to_nat 52) with (IZR 4503599627370496).
  - apply Rinv_r. apply not_0_IZR. discriminate.
  - rewrite pow_IZR. f_equal.
Qed.

Lemma analyse_float_one_silent_sample (junk_f junk_m : R) :
  analyse_float ATmega328P [[0]; [0]] 10000 junk_f junk_m
  = Ok {| durations := [1000; 1000]%Z;
          frequencies := [0; junk_f];
          modules := [0; junk_m] |}.
Proof.
  unfold analyse_float. cbn [first_channel bind length].
  rewrite resampled_float_one_sample. cbn [bind].
  rewrite merged_one_silent_sample. cbn [bind].
  destruct window_size_float_10kHz as [-> Hw]. cbn [bind].
  now apply analyse_at_one_silent_sample.
Qed.

(** Where the two counts part: three samples at 20 kHz are a window and a
    half. The exact product 1.5 rounds to 2; the float quotient
    [3 / 20000] times 10000 is 1.4999999999999998, which rounds to 1. *)
Lemma resampled_float_at_a_tie :
  resampled_data_size_float ATmega328P 3 20000 = Ok 1%Z /\
  resampled_data_size ATmega328P 3 20000 = 2%Z.
Proof.
  split; [reflexivity|].
  unfold resampled_data_size, py_round.
  cbn [playback_sampling_rate ATmega328P].
  assert (Hx : INR 3 / 20000 * 10000 = 3 / 2) by (simpl; lra).
  rewrite Hx.
  assert (Hf : Zfloor (3 / 2) = 1%Z) by (apply Zfloor_eq; simpl; lra).
  rewrite Hf. simpl (IZR 1).
  destruct (Rlt_dec (3 / 2 - 1) (1 / 2)) as [H|_]; [lra|].
  destruct (Rlt_dec (1 / 2) (3 / 2 - 1)) as [H|_]; [lra|].
  reflexivity.
Qed.

(** C8 (as stated) fails: a stereo recording of one sample at 10 kHz has
    [round(duration * playbackRate) = 1] window, and the arrays handed to
    the quantizer and the normalizer hold two entries, the second one
    being whatever the unwritten cell contains (here 5 and 7). *)
Lemma analyse_hands_over_one_more_entry :
  resampled_data_size_float ATmega328P 1 10000 = Ok 1%Z /\
  exists a,
    analyse_float ATmega328P [[0%R]; [0%R]] 10000 5 7 = Ok a /\
    length (frequencies a) = 2%nat /\ length (modules a) = 2%nat /\
    nth 1 (frequencies a) 0%R = 5%R /\ nth 1 (modules a) 0%R = 7%R.
Proof.
  split; [exact resampled_float_one_sample|].
  eexists. split; [apply analyse_float_one_silent_sample|].
  repeat split.
Qed.

(** [len(samples[0])] has a value exactly for a recording of two or more
    channels, and it is the length of the first one. *)
Lemma first_channel_ok (samples : list (list R)) (first : list R) :
  first_channel samples = Ok first <->
  nth_error samples 0 = Some first /\ (2 <= length samples)%nat.
Proof.
  destruct samples as [|c [|c' cs]]; cbn [first_channel nth_error length].
  - split; [discriminate | intros [H _]; discriminate H].
  - split; [destruct c; discriminate | intros [_ H]; lia].
  - split.
    + intros H. apply Ok_inj in H. subst. split; [reflexivity | lia].
    + intros [H _]. now inversion H.
Qed.

(** What a successful analysis has computed, for a window count [N] and a
    window size [w]. *)
Lemma analyse_at_inversion (m : mcu) (merged : list R) (sampling_rate N : Z)
    (w junk_f junk_m : R) (a : analysis) :
  analyse_at m merged sampling_rate N w junk_f junk_m = Ok a ->
  exists chunks found,
    array_split merged N = Ok chunks /\
    (0 < N)%Z /\
    length chunks = Z.to_nat N /\
    concat chunks = merged /\
    (forall c, In c chunks ->
       length c = (length merged / Z.to_nat N)%nat \/
       length c = S (length merged / Z.to_nat N)) /\
    Forall2 (fun chunk r =>
               get_dominant_freq_and_module chunk sampling_rate w = Ok r)
            chunks found /\
    frequencies a = map fst found ++ [junk_f] /\
    modules a = map snd found ++ [junk_m] /\
    durations a
    = repeat (astype_int16 (1 / IZR (playback_sampling_rate m) * 10000000))
        (S (Z.to_nat N)).
Proof.
  intros Ha. unfold analyse_at in Ha.
  apply bind_ok in Ha. destruct Ha as (chunks & Hchunks & Ha).
  apply bind_ok in Ha. destruct Ha as (found & Hfound & Ha).
  inversion Ha; subst a; clear Ha. cbn [frequencies modules durations] in *.
  pose proof (array_split_ok_pos _ _ _ Hchunks) as Hpos.
  destruct (array_split_spec merged N Hpos) as (chunks' & Hc' & Hlen & Hcat & Hsz).
  rewrite Hchunks in Hc'. inversion Hc'; subst chunks'.
  apply traverse_ok in Hfound.
  exists chunks, found. repeat split; try assumption.
  f_equal. lia.
Qed.

(** What a successful [analyse] has computed. *)
Lemma analyse_inversion (m : mcu) (samples : list (list R)) (first : list R)
    (sampling_rate N : Z) (junk_f junk_m : R) (a : analysis) :
  nth_error samples 0 = Some first ->
  N = resampled_data_size m (length first) sampling_rate ->
  analyse m samples sampling_rate junk_f junk_m = Ok a ->
  exists merged chunks found,
    merged_channels samples = Ok merged /\
    array_split merged N = Ok chunks /\
    (0 < N)%Z /\
    length chunks = Z.to_nat N /\
    concat chunks = merged /\
    (forall c, In c chunks ->
       length c = (length merged / Z.to_nat N)%nat \/
       length c = S (length merged / Z.to_nat N)) /\
    Forall2 (fun chunk r =>
               get_dominant_freq_and_module chunk sampling_rate
                 (IZR sampling_rate / IZR (playback_sampling_rate m)) = Ok r)
            chunks found /\
    frequencies a = map fst found ++ [junk_f] /\
    modules a = map snd found ++ [junk_m] /\
    durations a
    = repeat (astype_int16 (1 / IZR (playback_sampling_rate m) * 10000000))
        (S (Z.to_nat N)).
Proof.
  intros Hfirst HN Ha. unfold analyse in Ha.
  apply bind_ok in Ha. destruct Ha as (first' & Hf' & Ha).
  apply first_channel_ok in Hf'. destruct Hf' as [Hf' _].
  rewrite Hfirst in Hf'. apply Some_inj in Hf'. subst first'.
  destruct (sampling_rate =? 0)%Z; [discriminate|].
  apply bind_ok in Ha. destruct Ha as (merged & Hmerged & Ha).
  rewrite <- HN in Ha.
  destruct (analyse_at_inversion _ _ _ _ _ _ _ _ Ha)
    as (chunks & found & H).
  exists merged, chunks, found. tauto.
Qed.

(** What a successful [analyse_float] has computed. *)
Lemma analyse_float_inversion (m : mcu) (samples : list (list R))
    (sampling_rate : Z) (junk_f junk_m : R) (a : analysis) :
  analyse_float m samples sampling_rate junk_f junk_m = Ok a ->
  exists first N merged w,
    first_channel samples = Ok first /\
    resampled_data_size_float m (length first) sampling_rate = Ok N /\
    merged_channels samples = Ok merged /\
    fourier_window_size_float m sampling_rate = Ok w /\
    analyse_at m merged sampling_rate N (Float64.to_R w) junk_f junk_m = Ok a.
Proof.
  unfold analyse_float. intros Ha.
  apply bind_ok in Ha. destruct Ha as (first & Hf & Ha).
  apply bind_ok in Ha. destruct Ha as (N & HN & Ha).
  apply bind_ok in Ha. destruct Ha as (merged & Hm & Ha).
  apply bind_ok in Ha. destruct Ha as (w & Hw & Ha).
  exists first, N, merged, w. auto.
Qed.

(** C8 (amended): whenever the analysis of a waveform returns, with
    N = round(duration * playbackRate) as the program computes it in
    float64: the recording has two or more channels, N is positive, the
    merged signal is split into exactly N contiguous chunks whose lengths
    differ by at most one sample, each chunk yields one (dominant
    frequency, magnitude) entry, and every window has the same nominal
    duration; the arrays the quantizer, the normalizer and the encoder
    consume hold N + 1 entries: these N followed by one more entry that the
    analyzer did not write. *)
Theorem analyse_entries (m : mcu) (flatten_volume : bool)
    (samples : list (list R)) (first : list R) (sampling_rate : Z)
    (junk_f junk_m : R) (a : analysis) :
  nth_error samples 0 = Some first ->
  analyse_float m samples sampling_rate junk_f junk_m = Ok a ->
  exists N w merged chunks found,
    (2 <= length samples)%nat /\
    resampled_data_size_float m (length first) sampling_rate = Ok N /\
    fourier_window_size_float m sampling_rate = Ok w /\
    merged_channels samples = Ok merged /\
    array_split merged N = Ok chunks /\
    (0 < N)%Z /\
    length chunks = Z.to_nat N /\
    concat chunks = merged /\
    (forall c1 c2, In c1 chunks -> In c2 chunks ->
       (length c1 <= length c2 + 1)%nat) /\
    Forall2 (fun chunk r =>
               get_dominant_freq_and_module chunk sampling_rate
                 (Float64.to_R w) = Ok r)
            chunks found /\
    frequencies a = map fst found ++ [junk_f] /\
    modules a = map snd found ++ [junk_m] /\
    length (frequencies a) = S (Z.to_nat N) /\
    length (modules a) = S (Z.to_nat N) /\
    (exists d, durations a = repeat d (S (Z.to_nat N))) /\
    main_float m flatten_volume samples sampling_rate junk_f junk_m
    = (freq_indexes <- quantize m (frequencies a) ;;
       normalized_modules <- normalize m flatten_volume (modules a) ;;
       Encoder.compress_pwm_audio (durations a) freq_indexes
         normalized_modules).
Proof.
  intros Hfirst Ha.
  destruct (analyse_float_inversion _ _ _ _ _ _ Ha)
    as (first' & N & merged & w & Hf' & HN & Hm & Hw & Hat).
  apply first_channel_ok in Hf'. destruct Hf' as [Hf' Htwo].
  rewrite Hfirst in Hf'. apply Some_inj in Hf'. subst first'.
  destruct (analyse_at_inversion _ _ _ _ _ _ _ _ Hat)
    as (chunks & found & Hc & Hpos & Hlen & Hcat & Hsz & Hfound
        & Hf & Hmo & Hd).
  pose proof (Forall2_length Hfound) as Hfl.
  exists N, w, merged, chunks, found. repeat split; try assumption.
  - intros c1 c2 H1 H2. destruct (Hsz c1 H1), (Hsz c2 H2); lia.
  - rewrite Hf, length_app, length_map. simpl. lia.
  - rewrite Hmo, length_app, length_map. simpl. lia.
  - eexists. exact Hd.
  - unfold main_float. now rewrite Ha.
Qed.

Lemma analyse_entries_witness :
  exists N w merged chunks found,
    (2 <= length [[0]; [0]])%nat /\
    resampled_data_size_float ATmega328P (length [0]) 10000 = Ok N /\
    fourier_window_size_float ATmega328P 10000 = Ok w /\
    merged_channels [[0]; [0]] = Ok merged /\
    array_split merged N = Ok chunks /\
    (0 < N)%Z /\
    length chunks = Z.to_nat N /\
    concat chunks = merged /\
    (forall c1 c2, In c1 chunks -> In c2 chunks ->
       (length c1 <= length c2 + 1)%nat) /\
    Forall2 (fun chunk r =>
               get_dominant_freq_and_module chunk 10000
                 (Float64.to_R w) = Ok r)
            chunks found /\
    [0; 5] = map fst found ++ [5] /\
    [0; 7] = map snd found ++ [7] /\
    length [0; 5] = S (Z.to_nat N) /\
    length [0; 7] = S (Z.to_nat N) /\
    (exists d, [1000; 1000]%Z = repeat d (S (Z.to_nat N))) /\
    main_float ATmega328P false [[0]; [0]] 10000 5 7
    = (freq_indexes <- quantize ATmega328P [0; 5] ;;
       normalized_modules <- normalize ATmega328P false [0; 7] ;;
       Encoder.compress_pwm_audio [1000; 1000]%Z freq_indexes
         normalized_modules).
Proof.
  apply (analyse_entries ATmega328P false [[0]; [0]] [0] 10000 5 7
           {| durations := [1000; 1000]%Z;
              frequencies := [0; 5];
              modules := [0; 7] |}).
  - reflexivity.
  - apply analyse_float_one_silent_sample.
Defined.

(** *** Silent input through [analyse] *)

Lemma zip_with_Rmax_zero (l1 l2 : list R) :
  Forall (fun v => v = 0) l1 -> Forall (fun v => v = 0) l2 ->
  Forall (fun v => v = 0) (zip_with Rmax l1 l2).
Proof.
  intros H1. revert l2. induction H1 as [|x l1 Hx _ IH]; intros l2 H2; simpl.
  - constructor.
  - destruct H2 as [|y l2 Hy H2]; constructor; [|now apply IH].
    subst. apply Rmax_same.
Qed.

Lemma merged_channels_silent (samples : list (list R)) (merged : list R) :
  Forall (Forall (fun v => v = 0)) samples ->
  merged_channels samples = Ok merged ->
  Forall (fun v => v = 0) merged.
Proof.
  intros Hz Hm. unfold merged_channels in Hm.
  apply bind_ok in Hm. destruct Hm as (first & _ & Hm).
  apply bind_ok in Hm. destruct Hm as (across & Hacross & Hm).
  inversion Hm; subst merged; clear Hm. unfold maximum.
  apply zip_with_Rmax_zero.
  - destruct samples as [|c cs]; [discriminate|]. simpl in Hacross.
    inversion Hacross; subst across; clear Hacross.
    inversion Hz as [|? ? Hc Hcs]; subst. clear Hz. revert c Hc.
    induction Hcs as [|c' cs Hc' _ IH]; intros c Hc; simpl; [assumption|].
    apply IH. now apply zip_with_Rmax_zero.
  - apply Forall_forall. intros v Hv. now apply repeat_spec in Hv.
Qed.

(** For a silent waveform every analysed window has dominant frequency 0
    and magnitude 0. *)
Lemma analyse_silent (m : mcu) (samples : list (list R)) (first : list R)
    (sampling_rate : Z) (junk_f junk_m : R) (a : analysis) :
  nth_error samples 0 = Some first ->
  Forall (Forall (fun v => v = 0)) samples ->
  analyse m samples sampling_rate junk_f junk_m = Ok a ->
  let n := Z.to_nat (resampled_data_size m (length first) sampling_rate) in
  frequencies a = repeat 0 n ++ [junk_f] /\
  modules a = repeat 0 n ++ [junk_m].
Proof.
  intros Hfirst Hz Ha n.
  destruct (analyse_inversion m samples first sampling_rate _ junk_f junk_m
              a Hfirst eq_refl Ha)
    as (merged & chunks & found & Hm & _ & _ & Hlen & Hcat & _ & Hfound
        & Hf & Hmo & _).
  pose proof (merged_channels_silent samples merged Hz Hm) as Hmz.
  assert (Hall : Forall (fun r => r = (0, 0)) found).
  { assert (Hcz : Forall (Forall (fun v => v = 0)) chunks).
    { apply Forall_forall. intros c Hc. apply Forall_forall. intros v Hv.
      rewrite Forall_forall in Hmz. apply Hmz. rewrite <- Hcat.
      apply in_concat. eauto. }
    clear - Hfound Hcz. induction Hfound as [|c r cs rs Hr _ IH]; [constructor|].
    inversion Hcz; subst. constructor; [|now apply IH].
    eapply get_dominant_silent_ok; eassumption. }
  pose proof (Forall2_length Hfound) as Hfl.
  rewrite Hf, Hmo. subst n. rewrite <- Hlen, Hfl.
  split; f_equal.
  - rewrite <- (length_map fst found). apply all_equal_repeat, Forall_map.
    eapply Forall_impl; [|exact Hall]. intros r ->. reflexivity.
  - rewrite <- (length_map snd found). apply all_equal_repeat, Forall_map.
    eapply Forall_impl; [|exact Hall]. intros r ->. reflexivity.
Qed.

End Windowing.

(** ** Frequency quantizer *)

Section Quantizer.

Import Numpy Pipeline.
Local Open Scope R_scope.

Lemma amax_repeat (c : R) (n : nat) : amax (repeat c (S n)) = Ok c.
Proof. simpl. now rewrite fold_left_Rmax_repeat. Qed.

Lemma amin_repeat (c : R) (n : nat) : amin (repeat c (S n)) = Ok c.
Proof. simpl. now rewrite fold_left_Rmin_repeat. Qed.

Lemma geomspace_six (start stop : R) :
  start <> 0 -> stop <> 0 -> ~ start * stop < 0 ->
  geomspace start stop 6
  = Ok [start; geom_point start stop 6 1; geom_point start stop 6 2;
        geom_point start stop 6 3; geom_point start stop 6 4; stop].
Proof.
  intros H1 H2 H3. unfold geomspace.
  destruct (Req_dec_T start 0); [contradiction|].
  destruct (Req_dec_T stop 0); [contradiction|].
  destruct (Rlt_dec (start * stop) 0); [contradiction|].
  reflexivity.
Qed.

(** For positive endpoints the points are [exp] of the points that divide
    [ln start .. ln stop] evenly. *)
Lemma geom_point_exp (start stop : R) (i : nat) :
  0 < start -> 0 < stop ->
  geom_point start stop 6 i
  = exp (ln start + INR i / INR 5 * (ln stop - ln start)).
Proof.
  intros Hs Ht. unfold geom_point, Rpower.
  change (6 - 1)%nat with 5%nat. unfold Rdiv. rewrite ln_mult, ln_Rinv; try assumption;
    [|now apply Rinv_0_lt_compat].
  rewrite exp_plus, exp_ln by assumption. reflexivity.
Qed.

Lemma geom_point_pos (start stop : R) (i : nat) :
  0 < start -> 0 < geom_point start stop 6 i.
Proof.
  intros Hs. unfold geom_point, Rpower.
  apply Rmult_lt_0_compat; [assumption | apply exp_pos].
Qed.

Lemma exp_le (x y : R) : x <= y -> exp x <= exp y.
Proof.
  intros [H | ->]; [left; now apply exp_increasing | right; reflexivity].
Qed.

Lemma geom_point_first (start stop : R) :
  0 < start -> 0 < stop -> geom_point start stop 6 0 = start.
Proof.
  intros Hs Ht. rewrite geom_point_exp by assumption. cbn [INR].
  replace (ln start + 0 / (1 + 1 + 1 + 1 + 1) * (ln stop - ln start))
    with (ln start) by lra.
  now apply exp_ln.
Qed.

Lemma geom_point_last (start stop : R) :
  0 < start -> 0 < stop -> geom_point start stop 6 5 = stop.
Proof.
  intros Hs Ht. rewrite geom_point_exp by assumption. cbn [INR].
  replace (ln start + (1 + 1 + 1 + 1 + 1) / (1 + 1 + 1 + 1 + 1)
                      * (ln stop - ln start))
    with (ln stop) by lra.
  now apply exp_ln.
Qed.

Lemma geom_point_same (start : R) (i : nat) :
  0 < start -> geom_point start start 6 i = start.
Proof.
  intros Hs. rewrite geom_point_exp by assumption.
  replace (ln start + INR i / INR 5 * (ln start - ln start))
    with (ln start) by lra.
  now apply exp_ln.
Qed.

Lemma fifth_lt (i j : nat) : (i < j)%nat -> INR i / INR 5 < INR j / INR 5.
Proof.
  intros H. apply lt_INR in H.
  assert (H5 : INR 5 = 5) by (simpl; lra). rewrite H5. lra.
Qed.

(** Increasing endpoints give increasing points, decreasing endpoints
    decreasing ones. *)
Lemma geom_point_ascending (start stop : R) (i j : nat) :
  0 < start -> start < stop -> (i < j)%nat ->
  geom_point start stop 6 i < geom_point start stop 6 j.
Proof.
  intros Hs Hst Hij. rewrite !geom_point_exp by lra.
  apply exp_increasing.
  pose proof (ln_increasing start stop Hs Hst).
  pose proof (fifth_lt i j Hij). nra.
Qed.

Lemma geom_point_descending (start stop : R) (i j : nat) :
  0 < stop -> stop < start -> (i < j)%nat ->
  geom_point start stop 6 j < geom_point start stop 6 i.
Proof.
  intros Ht Hst Hij. rewrite !geom_point_exp by lra.
  apply exp_increasing.
  pose proof (ln_increasing stop start Ht Hst).
  pose proof (fifth_lt i j Hij). nra.
Qed.

Lemma available_freqs_count : length (available_freqs ATmega328P) = 6%nat.
Proof. reflexivity. Qed.

Lemma searchsorted_split (a1 a2 : list R) (v : R) (side_right : bool) :
  Forall (fun b => (if side_right then Rleb b v else Rltb b v) = true) a1 ->
  Forall (fun b => (if side_right then Rleb b v else Rltb b v) = false) a2 ->
  searchsorted (a1 ++ a2) v side_right = length a1.
Proof.
  intros H1 H2. unfold searchsorted. rewrite filter_app, length_app.
  replace (filter _ a2) with (@nil R).
  - simpl. rewrite Nat.add_0_r. f_equal.
    induction H1 as [|b a1 Hb _ IH]; simpl; [reflexivity|].
    rewrite Hb. now f_equal.
  - symmetry. induction H2 as [|b a2 Hb _ IH]; simpl; [reflexivity|].
    now rewrite Hb.
Qed.

Lemma searchsorted_none (a : list R) (v : R) (side_right : bool) :
  Forall (fun b => (if side_right then Rleb b v else Rltb b v) = false) a ->
  searchsorted a v side_right = 0%nat.
Proof. intros H. now apply (searchsorted_split [] a v side_right). Qed.

Lemma searchsorted_all (a : list R) (v : R) (side_right : bool) :
  Forall (fun b => (if side_right then Rleb b v else Rltb b v) = true) a ->
  searchsorted a v side_right = length a.
Proof.
  intros H. rewrite <- (app_nil_r a) at 1.
  now apply (searchsorted_split a [] v side_right).
Qed.

(** A constant, non-negative frequency array is refused: a zero makes
    [geomspace] raise, and a positive constant c gives edges that fall from
    c + 1 to c, which with the first one set to 0 are not monotonic. *)
Lemma quantize_constant_nonneg (c : R) (n : nat) :
  0 <= c -> quantize ATmega328P (repeat c (S n)) = Raise ValueError.
Proof.
  intros Hc. unfold quantize. rewrite amin_repeat, amax_repeat. cbn [bind].
  rewrite available_freqs_count.
  destruct (Req_dec_T c 0) as [-> | Hne].
  - unfold geomspace. decide_reals. reflexivity.
  - assert (Hpos : 0 < c) by lra.
    rewrite geomspace_six by nra. cbn [bind set_item0 rev app].
    pose proof (geom_point_descending (c + 1) c 4 5 Hpos ltac:(lra) ltac:(lia))
      as H4.
    rewrite geom_point_last in H4 by lra.
    pose proof (geom_point_pos (c + 1) c 1 ltac:(lra)) as H1.
    unfold digitize, check_array_monotonic.
    cbn [skip_repeated never_descends never_ascends].
    decide_reals; reflexivity.
Qed.

Lemma geom_point_negative (start stop : R) (i : nat) :
  start < 0 ->
  geom_point start stop 6 i = - geom_point (- start) (- stop) 6 i.
Proof.
  intros Hs. unfold geom_point.
  replace (- stop / - start) with (stop / start) by (field; lra). ring.
Qed.

(** A constant frequency array below -1 is the one degenerate case the
    quantizer accepts: the edges fall from c + 1 to c, stay monotonic with
    the first one set to 0, and every entry gets bucket 1. *)
Lemma quantize_constant_below_minus_one (c : R) (n : nat) :
  c < -1 ->
  quantize ATmega328P (repeat c (S n)) = Ok (repeat 1%Z (S n)).
Proof.
  intros Hc. unfold quantize. rewrite amin_repeat, amax_repeat. cbn [bind].
  rewrite available_freqs_count.
  rewrite geomspace_six by nra. cbn [bind set_item0 rev app].
  assert (Hasc : forall i j, (i < j)%nat ->
            geom_point (c + 1) c 6 j < geom_point (c + 1) c 6 i).
  { intros i j Hij.
    rewrite (geom_point_negative (c + 1) c i),
      (geom_point_negative (c + 1) c j) by lra.
    apply Ropp_lt_contravar.
    apply geom_point_ascending; [lra | lra | assumption]. }
  assert (H1 : geom_point (c + 1) c 6 1 < 0).
  { rewrite geom_point_negative by lra.
    pose proof (geom_point_pos (- (c + 1)) (- c) 1 ltac:(lra)). lra. }
  pose proof (Hasc 1 2 ltac:(lia))%nat as H12.
  pose proof (Hasc 2 3 ltac:(lia))%nat as H23.
  pose proof (Hasc 3 4 ltac:(lia))%nat as H34.
  pose proof (Hasc 4 5 ltac:(lia))%nat as H45.
  rewrite (geom_point_negative (c + 1) c 5) in H45 by lra.
  rewrite geom_point_last in H45 by lra.
  unfold digitize.
  replace (check_array_monotonic _) with 1%Z.
  2:{ unfold check_array_monotonic.
      cbn [skip_repeated never_descends never_ascends].
      decide_reals; reflexivity. }
  cbn [Z.eqb negb]. f_equal. rewrite map_repeat. f_equal.
  change [c; geom_point (c + 1) c 6 4; geom_point (c + 1) c 6 3;
          geom_point (c + 1) c 6 2; geom_point (c + 1) c 6 1; 0]
    with ([c] ++ [geom_point (c + 1) c 6 4; geom_point (c + 1) c 6 3;
                  geom_point (c + 1) c 6 2; geom_point (c + 1) c 6 1; 0]).
  rewrite searchsorted_split;
    [reflexivity | |];
    repeat constructor; unfold Rleb; decide_reals; reflexivity.
Qed.

Lemma fold_left_Rmax_upper (l : list R) (acc : R) :
  acc <= fold_left Rmax l acc /\
  forall x, In x l -> x <= fold_left Rmax l acc.
Proof.
  revert acc; induction l as [|y l IH]; intros acc; simpl.
  - split; [lra | intros x []].
  - destruct (IH (Rmax acc y)) as [H1 H2].
    pose proof (Rmax_l acc y). pose proof (Rmax_r acc y).
    split; [lra|]. intros x [<- | Hx]; [lra | now apply H2].
Qed.

Lemma amax_upper (l : list R) (hi : R) :
  amax l = Ok hi -> forall x, In x l -> x <= hi.
Proof.
  destruct l as [|y l]; simpl; intros H; inversion H; subst.
  destruct (fold_left_Rmax_upper l y) as [H1 H2].
  intros x [<- | Hx]; [assumption | now apply H2].
Qed.

Lemma searchsorted_le_length (a : list R) (v : R) (side_right : bool) :
  (searchsorted a v side_right <= length a)%nat.
Proof.
  unfold searchsorted. induction a as [|b a IH]; simpl; [lia|].
  destruct (if side_right then Rleb b v else Rltb b v); simpl; lia.
Qed.

Lemma digitize_length (x bins : list R) (right : bool) (idx : list Z) :
  digitize x bins right = Ok idx -> length idx = length x.
Proof.
  unfold digitize.
  destruct (check_array_monotonic bins =? 0)%Z; [discriminate|].
  destruct (check_array_monotonic bins =? -1)%Z; intros H; inversion H;
    apply length_map.
Qed.

Lemma set_item0_length {A : Type} (a b : list A) (v : A) :
  set_item0 a v = Ok b -> length b = length a.
Proof. destruct a; simpl; intros H; inversion H; reflexivity. Qed.

(** The quantizer gives every entry a bucket. *)
Lemma quantize_length (m : mcu) (frequencies : list R) (idx : list Z) :
  quantize m frequencies = Ok idx -> length idx = length frequencies.
Proof.
  unfold quantize. intros H.
  apply bind_ok in H. destruct H as (lo & _ & H).
  apply bind_ok in H. destruct H as (hi & _ & H).
  apply bind_ok in H. destruct H as (bins & _ & H).
  apply bind_ok in H. destruct H as (bins' & _ & H).
  now apply digitize_length in H.
Qed.

(** Edges that pass as non-decreasing after the reversal start at or
    below the last of them, which is the edge set to 0. *)
Lemma reversed_edges_increasing (hi g4 g3 g2 g1 : R) :
  check_array_monotonic [hi; g4; g3; g2; g1; 0] = 1%Z -> hi <= 0.
Proof.
  unfold check_array_monotonic.
  cbn [skip_repeated never_descends never_ascends].
  decide_reals; intros H; try discriminate H; lra.
Qed.

(** Whenever the quantizer returns, every bucket lies in [0 .. K], and an
    entry whose dominant frequency is not negative gets a bucket in
    [0 .. K - 1]. *)
Lemma quantize_range (frequencies : list R) (idx : list Z) :
  quantize ATmega328P frequencies = Ok idx ->
  Forall2 (fun f i => (0 <= i <= 6)%Z /\ (0 <= f -> (i <= 5)%Z))
          frequencies idx.
Proof.
  unfold quantize. intros H.
  apply bind_ok in H. destruct H as (lo & _ & H).
  apply bind_ok in H. destruct H as (hi & Hhi & H).
  apply bind_ok in H. destruct H as (bins & Hbins & H).
  apply bind_ok in H. destruct H as (bins' & Hset & H).
  rewrite available_freqs_count in Hbins.
  assert (Hne : hi <> 0 /\
                bins = [lo + 1; geom_point (lo + 1) hi 6 1;
                        geom_point (lo + 1) hi 6 2;
                        geom_point (lo + 1) hi 6 3;
                        geom_point (lo + 1) hi 6 4; hi]).
  { unfold geomspace in Hbins.
    destruct (Req_dec_T (lo + 1) 0); [discriminate|].
    destruct (Req_dec_T hi 0); [discriminate|].
    destruct (Rlt_dec ((lo + 1) * hi) 0); [discriminate|].
    split; [assumption|]. now inversion Hbins. }
  destruct Hne as [Hne ->]. simpl in Hset. inversion Hset; subst bins'.
  clear Hset Hbins. cbn [rev app] in H.
  pose proof (amax_upper frequencies hi Hhi) as Hub. clear Hhi.
  unfold digitize in H.
  set (k := length [hi; geom_point (lo + 1) hi 6 4; geom_point (lo + 1) hi 6 3;
                    geom_point (lo + 1) hi 6 2; geom_point (lo + 1) hi 6 1; 0])
    in H.
  assert (Hk : k = 6%nat) by reflexivity. clearbody k.
  destruct (check_array_monotonic _ =? 0)%Z eqn:E0; [discriminate|].
  destruct (check_array_monotonic _ =? -1)%Z eqn:E1;
    injection H as <-.
  - change (rev [hi; geom_point (lo + 1) hi 6 4; geom_point (lo + 1) hi 6 3;
                 geom_point (lo + 1) hi 6 2; geom_point (lo + 1) hi 6 1; 0])
      with [0; geom_point (lo + 1) hi 6 1; geom_point (lo + 1) hi 6 2;
            geom_point (lo + 1) hi 6 3; geom_point (lo + 1) hi 6 4; hi].
    induction frequencies as [|f fs IH]; cbn [map]; constructor.
    + split; [lia|]. intros Hf.
      assert (Nat.le 1 (searchsorted
                     [0; geom_point (lo + 1) hi 6 1; geom_point (lo + 1) hi 6 2;
                      geom_point (lo + 1) hi 6 3; geom_point (lo + 1) hi 6 4; hi]
                     f true)); [|cbn [negb]; lia].
      unfold searchsorted. cbn [filter negb]. unfold Rleb at 1.
      destruct (Rle_dec 0 f); [simpl; lia | contradiction].
    + apply IH. intros x Hx. apply Hub. now right.
  - assert (Hmono : check_array_monotonic
                      [hi; geom_point (lo + 1) hi 6 4; geom_point (lo + 1) hi 6 3;
                       geom_point (lo + 1) hi 6 2; geom_point (lo + 1) hi 6 1; 0]
                    = 1%Z).
    { apply Z.eqb_neq in E0. apply Z.eqb_neq in E1. revert E0 E1.
      unfold check_array_monotonic.
      cbn [skip_repeated never_descends never_ascends].
      repeat match goal with
             | |- context [if ?c then _ else _] => destruct c
             end; intros; try reflexivity; lia. }
    apply reversed_edges_increasing in Hmono.
    induction frequencies as [|f fs IH]; cbn [map]; constructor.
    + pose proof (searchsorted_le_length
                    [hi; geom_point (lo + 1) hi 6 4; geom_point (lo + 1) hi 6 3;
                     geom_point (lo + 1) hi 6 2; geom_point (lo + 1) hi 6 1; 0]
                    f true) as Hle.
      cbn [length] in Hle. cbn [negb]. split; [lia|]. intros Hf.
      pose proof (Hub f (or_introl eq_refl)). exfalso. apply Hne. lra.
    + apply IH. intros x Hx. apply Hub. now right.
Qed.

(** C4, at the failing input: a frequency array with a negative entry,
    [11025.0, -0.5]. The edges are those of [geomspace(0.5, 11025.0, 6)]
    with the first one set to 0; against the reversed edges the negative
    entry gets bucket 6, which is the number K of available frequencies
    itself. *)
Theorem quantize_negative_frequency :
  quantize ATmega328P [11025; -1 / 2] = Ok [0; 6]%Z /\
  length (available_freqs ATmega328P) = 6%nat.
Proof.
  split; [|reflexivity].
  unfold quantize, amin, amax. cbn [fold_left bind].
  rewrite Rmin_right, Rmax_left by lra. rewrite available_freqs_count.
  set (s := -1 / 2 + 1). assert (Hs : s = 1 / 2) by (unfold s; lra).
  set (t := 11025).
  assert (Ht : t = 11025) by reflexivity. clearbody t.
  rewrite geomspace_six by nra. cbn [bind set_item0 rev app].
  assert (H01 : 0 < geom_point s t 6 1) by (apply geom_point_pos; lra).
  pose proof (geom_point_ascending s t 1 2 ltac:(lra) ltac:(lra) ltac:(lia))
    as H12.
  pose proof (geom_point_ascending s t 2 3 ltac:(lra) ltac:(lra) ltac:(lia))
    as H23.
  pose proof (geom_point_ascending s t 3 4 ltac:(lra) ltac:(lra) ltac:(lia))
    as H34.
  pose proof (geom_point_ascending s t 4 5 ltac:(lra) ltac:(lra) ltac:(lia))
    as H45.
  rewrite geom_point_last in H45 by lra.
  unfold digitize.
  replace (check_array_monotonic _) with (-1)%Z.
  2:{ unfold check_array_monotonic.
      cbn [skip_repeated never_descends never_ascends].
      decide_reals; reflexivity. }
  cbn [Z.eqb negb map rev app length].
  rewrite searchsorted_all
    by (repeat constructor; unfold Rleb; decide_reals; reflexivity).
  rewrite searchsorted_none
    by (repeat constructor; unfold Rleb; decide_reals; reflexivity).
  reflexivity.
Qed.

(** C6 (as stated) fails: when every entry reports the dominant frequency
    0 the quantizer raises an error. *)
Lemma quantize_constant_zero_raises :
  quantize ATmega328P [0; 0; 0] = Raise ValueError.
Proof. apply (quantize_constant_nonneg 0 2). lra. Qed.

(** C6 (amended): for every input in which all entries report the same
    dominant frequency c (min equals max), the quantizer has no fallback:
    when c >= 0 it raises an error (ValueError) and assigns no bucket; when
    c < -1 it maps every entry to the same bucket, 1. *)
Theorem quantize_degenerate_range (frequencies : list R) (c : R) :
  frequencies <> [] ->
  Forall (fun f => f = c) frequencies ->
  (0 <= c -> quantize ATmega328P frequencies = Raise ValueError) /\
  (c < -1 ->
   quantize ATmega328P frequencies = Ok (repeat 1%Z (length frequencies))).
Proof.
  intros Hne Hall. rewrite (all_equal_repeat c frequencies Hall).
  destruct frequencies as [|f fs]; [contradiction|].
  rewrite repeat_length. split; intros Hc.
  - now apply quantize_constant_nonneg.
  - now apply quantize_constant_below_minus_one.
Qed.

Lemma quantize_degenerate_range_witness :
  (0 <= 440 -> quantize ATmega328P [440; 440] = Raise ValueError) /\
  (440 < -1 ->
   quantize ATmega328P [440; 440] = Ok (repeat 1%Z (length [440; 440]))).
Proof.
  apply (quantize_degenerate_range [440; 440] 440).
  - discriminate.
  - repeat constructor.
Defined.

End Quantizer.

(** ** Loudness normalizer *)

Section Normalizer.

Import Numpy Pipeline.
Local Open Scope R_scope.

Lemma traverse_repeat {A B : Type} (f : A -> outcome B) (c : A) (y : B) (n : nat) :
  f c = Ok y -> traverse f (repeat c n) = Ok (repeat y n).
Proof.
  intros H. induction n as [|n IH]; simpl; [reflexivity|].
  now rewrite H, IH.
Qed.

Lemma traverse_length {A B : Type} (f : A -> outcome B) (l : list A) (r : list B) :
  traverse f l = Ok r -> length r = length l.
Proof. intros H. symmetry. exact (Forall2_length (traverse_ok f l r H)). Qed.

Lemma interp_top (top fp0 fp1 : R) :
  0 <= top -> interp top 0 top fp0 fp1 = fp1.
Proof. intros H. unfold interp. decide_reals; reflexivity. Qed.

Lemma interp_origin (top fp0 fp1 : R) :
  0 < top -> interp 0 0 top fp0 fp1 = fp0.
Proof. intros H. unfold interp. decide_reals; reflexivity. Qed.

(** Whatever [x] and [top] are, the interpolation onto [(0, fp1)] stays
    between 0 and [fp1]. *)
Lemma interp_range (x top fp1 : R) :
  0 <= fp1 -> 0 <= interp x 0 top 0 fp1 <= fp1.
Proof.
  intros H. unfold interp. decide_reals.
  assert (Hx : 0 < x < top) by lra.
  assert (Hq : 0 < x / top < 1).
  { split.
    - apply Rdiv_lt_0_compat; lra.
    - apply (Rmult_lt_reg_r top); [lra|]. unfold Rdiv.
      rewrite Rmult_assoc, Rinv_l by lra. lra. }
  replace ((fp1 - 0) / (top - 0) * (x - 0) + 0) with (fp1 * (x / top))
    by (field; lra).
  nra.
Qed.

Lemma ln_two_pos : 0 < ln (1 + 1).
Proof. rewrite <- ln_1. apply ln_increasing; lra. Qed.

Lemma ln_one_plus : ln (0 + 1) = 0.
Proof. rewrite Rplus_0_l. apply ln_1. Qed.

Lemma max_duty_ATmega328P :
  IZR (pwm_duty_cycle_max_value ATmega328P) = 254.
Proof. reflexivity. Qed.

Lemma digitize_flatten (levels : list Z) :
  digitize (map IZR levels) [0; 255] true = Ok (map flat_index levels).
Proof.
  unfold digitize.
  replace (check_array_monotonic [0; 255]) with 1%Z.
  2:{ unfold check_array_monotonic.
      cbn [skip_repeated never_descends never_ascends].
      decide_reals; reflexivity. }
  cbn [Z.eqb negb]. f_equal. rewrite map_map. apply map_ext. intros z.
  unfold searchsorted, Rltb, flat_index. cbn [filter].
  destruct (Rlt_dec 0 (IZR z)) as [H0|H0];
    destruct (Rlt_dec 255 (IZR z)) as [H1|H1]; cbn [length];
    try apply lt_IZR in H0; try apply lt_IZR in H1;
    destruct (z <=? 0)%Z eqn:E0; destruct (z <=? 255)%Z eqn:E1;
    try apply Z.leb_le in E0; try apply Z.leb_gt in E0;
    try apply Z.leb_le in E1; try apply Z.leb_gt in E1;
    try reflexivity; try lia;
    exfalso; try (apply H0; apply IZR_lt; lia); apply H1; apply IZR_lt; lia.
Qed.

(** All-zero magnitudes: the compressed values and their maximum are 0,
    and the interpolation returns the upper level for an argument that is
    not below the upper point. *)
Lemma normalize_silent (flatten_volume : bool) (n : nat) :
  normalize ATmega328P flatten_volume (repeat 0 (S n))
  = Ok (repeat (if flatten_volume then 255 else 254)%Z (S n)).
Proof.
  unfold normalize.
  rewrite (traverse_repeat _ 0 (ln (0 + 1)))
    by (unfold np_log; decide_reals; reflexivity).
  cbn [bind]. rewrite amax_repeat. cbn [bind].
  rewrite map_repeat, interp_top by (rewrite ln_one_plus; lra).
  rewrite (astype_int16_IZR _ 254) by (try reflexivity; lia).
  destruct flatten_volume; [|reflexivity].
  rewrite digitize_flatten. cbn [bind]. now rewrite !map_repeat.
Qed.

(** C3, at the failing input: one window of magnitude 1 with
    [--flatten_volume]. Its level is 255, above
    [pwm_duty_cycle_max_value = 254]. *)
Theorem normalize_flatten_exceeds_max :
  normalize ATmega328P true [1] = Ok [255%Z] /\
  (pwm_duty_cycle_max_value ATmega328P < 255)%Z.
Proof.
  split; [|reflexivity]. unfold normalize.
  cbn [traverse]. unfold np_log at 1.
  destruct (Rlt_dec 0 (1 + 1)) as [_|H]; [|exfalso; apply H; lra].
  cbn [bind amax fold_left].
  rewrite digitize_flatten. cbn [bind map].
  rewrite interp_top by (pose proof ln_two_pos; lra).
  rewrite (astype_int16_IZR _ 254) by (try reflexivity; lia).
  reflexivity.
Qed.

Lemma normalize_quiet_then_loud :
  normalize ATmega328P false [0; 1] = Ok [0; 254]%Z.
Proof.
  unfold normalize. cbn [traverse]. unfold np_log.
  destruct (Rlt_dec 0 (0 + 1)) as [_|H]; [|exfalso; apply H; lra].
  destruct (Rlt_dec 0 (1 + 1)) as [_|H]; [|exfalso; apply H; lra].
  cbn [bind amax fold_left map].
  pose proof ln_two_pos as H2. rewrite ln_one_plus.
  rewrite Rmax_right by lra.
  rewrite interp_origin, interp_top by lra.
  rewrite (astype_int16_IZR _ 0) by (try reflexivity; lia).
  rewrite (astype_int16_IZR _ 254) by (try reflexivity; lia).
  reflexivity.
Qed.

Lemma astype_int16_range (x : R) :
  0 <= x <= 254 -> (0 <= astype_int16 x <= 254)%Z.
Proof.
  intros [H0 H1]. unfold astype_int16, wrap_int16, trunc.
  destruct (Rle_dec 0 x); [|contradiction].
  pose proof (Zfloor_bound x) as [Hlo _].
  assert (Hge : (0 <= Zfloor x)%Z) by (apply Zfloor_lub; exact H0).
  assert (Hle : (Zfloor x <= 254)%Z) by (apply le_IZR; lra).
  rewrite Z.mod_small by lia. lia.
Qed.

(** The normalizer gives every entry a level. *)
Lemma normalize_length (m : mcu) (flatten_volume : bool) (modules : list R)
    (levels : list Z) :
  normalize m flatten_volume modules = Ok levels ->
  length levels = length modules.
Proof.
  unfold normalize. intros H.
  apply bind_ok in H. destruct H as (cs & Hcs & H).
  apply bind_ok in H. destruct H as (top & _ & H).
  apply traverse_length in Hcs.
  destruct flatten_volume.
  - apply bind_ok in H. destruct H as (idx & Hidx & H).
    apply digitize_length in Hidx. rewrite !length_map in Hidx.
    injection H as <-. rewrite length_map. congruence.
  - injection H as <-. rewrite length_map. congruence.
Qed.

(** Without [--flatten_volume] every level lies in
    [0 .. pwm_duty_cycle_max_value]. *)
Lemma normalize_range (modules : list R) (levels : list Z) :
  normalize ATmega328P false modules = Ok levels ->
  Forall (fun l => (0 <= l <= pwm_duty_cycle_max_value ATmega328P)%Z) levels.
Proof.
  unfold normalize. intros H.
  apply bind_ok in H. destruct H as (cs & _ & H).
  apply bind_ok in H. destruct H as (top & _ & H).
  inversion H; subst levels. apply Forall_map, Forall_forall. intros c _.
  change (pwm_duty_cycle_max_value ATmega328P) with 254%Z.
  apply astype_int16_range. apply interp_range. lra.
Qed.

(** With [--flatten_volume] every level is 0 or 255. *)
Lemma normalize_flatten_levels (modules : list R) (levels : list Z) :
  normalize ATmega328P true modules = Ok levels ->
  Forall (fun l => l = 0%Z \/ l = 255%Z) levels.
Proof.
  unfold normalize. intros H.
  apply bind_ok in H. destruct H as (cs & _ & H).
  apply bind_ok in H. destruct H as (top & _ & H).
  rewrite digitize_flatten in H. cbn [bind] in H.
  inversion H; subst levels. rewrite !map_map.
  apply Forall_map, Forall_forall. intros c _.
  change (pwm_duty_cycle_max_value ATmega328P) with 254%Z.
  pose proof (astype_int16_range (interp c 0 top 0 254)
                (interp_range c top 254 ltac:(lra))) as Hr.
  unfold flat_index.
  destruct (_ <=? 0)%Z eqn:E0; [now left|].
  destruct (_ <=? 255)%Z eqn:E1; [now right|].
  apply Z.leb_gt in E1. lia.
Qed.

End Normalizer.

(** ** The whole pipeline *)

Section WholePipeline.

Import Numpy Pipeline.
Local Open Scope R_scope.

Lemma quantize_zero_then_one : quantize ATmega328P [0; 1] = Ok [5; 0]%Z.
Proof.
  unfold quantize, amin, amax. cbn [fold_left bind].
  rewrite Rmin_left, Rmax_right by lra. rewrite available_freqs_count.
  replace (0 + 1) with 1 by lra.
  rewrite geomspace_six by lra. rewrite !geom_point_same by lra.
  cbn [bind set_item0 rev app]. unfold digitize.
  replace (check_array_monotonic _) with (-1)%Z.
  2:{ unfold check_array_monotonic.
      cbn [skip_repeated never_descends never_ascends].
      decide_reals; reflexivity. }
  cbn [Z.eqb negb map rev app length].
  change [0; 1; 1; 1; 1; 1] with ([0] ++ [1; 1; 1; 1; 1]).
  rewrite (searchsorted_split [0] [1; 1; 1; 1; 1] 0 true)
    by (repeat constructor; unfold Rleb; decide_reals; reflexivity).
  rewrite searchsorted_all
    by (repeat constructor; unfold Rleb; decide_reals; reflexivity).
  reflexivity.
Qed.

Lemma main_one_silent_sample (flatten_volume : bool) (junk_f junk_m : R) :
  main ATmega328P flatten_volume [[0]; [0]] 10000 junk_f junk_m
  = (freq_indexes <- quantize ATmega328P [0; junk_f] ;;
     normalized_modules <- normalize ATmega328P flatten_volume [0; junk_m] ;;
     Encoder.compress_pwm_audio [1000; 1000]%Z freq_indexes
       normalized_modules).
Proof. unfold main. now rewrite analyse_one_silent_sample. Qed.

(** C7, at the failing input: a stereo recording of one silent sample at
    10 kHz, converted three times without [--flatten_volume]. The three
    runs differ only in what the cells that [np.empty] leaves unwritten
    hold, (1, 0), (1, 1) and (0, 0): the first two return different events,
    also for the one real window, and the third raises an error. *)
Theorem main_depends_on_unwritten_cells :
  main ATmega328P false [[0]; [0]] 10000 1 0
  = Ok [(1000, 5, 254); (0, 0, 254)]%Z /\
  main ATmega328P false [[0]; [0]] 10000 1 1
  = Ok [(1000, 5, 0); (0, 0, 254)]%Z /\
  main ATmega328P false [[0]; [0]] 10000 0 0 = Raise ValueError.
Proof.
  rewrite !main_one_silent_sample. repeat split.
  - rewrite quantize_zero_then_one. cbn [bind].
    change [0; 0] with (repeat 0 2).
    rewrite (normalize_silent false 1). reflexivity.
  - rewrite quantize_zero_then_one. cbn [bind].
    rewrite normalize_quiet_then_loud. reflexivity.
  - change [0; 0] with (repeat 0 2).
    now rewrite (quantize_constant_nonneg 0 1) by lra.
Qed.

(** C5 (as stated) fails: for a stereo recording of one silent sample at
    10 kHz, the unwritten cells holding 0 as well, the run raises an error
    instead of completing, and the normalizer gives the all-zero magnitudes
    the level 254. *)
Lemma silent_run_raises_and_level_is_max :
  main ATmega328P false [[0]; [0]] 10000 0 0 = Raise ValueError /\
  normalize ATmega328P false [0; 0] = Ok [254; 254]%Z.
Proof.
  split.
  - rewrite main_one_silent_sample. change [0; 0] with (repeat 0 2).
    now rewrite (quantize_constant_nonneg 0 1) by lra.
  - exact (normalize_silent false 1).
Qed.

(** C5 (amended): for every silent input whose analysis returns, the
    cells left unwritten holding 0 as well, and for either setting of
    flattenVolume: the loudness normalizer returns on the all-zero
    magnitudes without a division fault and gives every entry the level
    254 (255 with flattenVolume), not 0; the frequency quantizer raises an
    error (ValueError) on the all-zero dominant frequencies, so the run
    raises it and produces no ToneEvent. *)
Theorem silent_input (flatten_volume : bool) (samples : list (list R))
    (first : list R) (sampling_rate : Z) (a : analysis) :
  nth_error samples 0 = Some first ->
  Forall (Forall (fun v => v = 0)) samples ->
  analyse ATmega328P samples sampling_rate 0 0 = Ok a ->
  normalize ATmega328P flatten_volume (modules a)
  = Ok (repeat (if flatten_volume then 255 else 254)%Z (length (modules a))) /\
  quantize ATmega328P (frequencies a) = Raise ValueError /\
  main ATmega328P flatten_volume samples sampling_rate 0 0 = Raise ValueError.
Proof.
  intros Hfirst Hz Ha.
  destruct (analyse_silent _ _ _ _ _ _ _ Hfirst Hz Ha) as [Hf Hm].
  cbv zeta in Hf, Hm. rewrite repeat_snoc in Hf, Hm.
  assert (Hq : quantize ATmega328P (frequencies a) = Raise ValueError)
    by (rewrite Hf; apply quantize_constant_nonneg; lra).
  repeat split.
  - rewrite Hm, repeat_length. apply normalize_silent.
  - exact Hq.
  - unfold main. rewrite Ha. cbn [bind]. now rewrite Hq.
Qed.

Lemma silent_input_witness :
  normalize ATmega328P true [0; 0]
  = Ok (repeat 255%Z (length [0; 0])) /\
  quantize ATmega328P [0; 0] = Raise ValueError /\
  main ATmega328P true [[0]; [0]] 10000 0 0 = Raise ValueError.
Proof.
  apply (silent_input true [[0]; [0]] [0] 10000
           {| durations := [1000; 1000]%Z;
              frequencies := [0; 0];
              modules := [0; 0] |}).
  - reflexivity.
  - repeat constructor.
  - apply analyse_one_silent_sample.
Defined.

(** What a run that returns has encoded: the events account for exactly
    the N = round(duration * playbackRate) analysed windows, in time (N
    base durations of 1000 ticks) and in content (the expansion gives the
    N pairs of the windows); the entry the encoder was handed after them
    adds nothing to either. *)
Lemma main_covers_the_windows (flatten_volume : bool)
    (samples : list (list R)) (first : list R) (sampling_rate : Z)
    (junk_f junk_m : R) (evs : list Encoder.ToneEvent) :
  nth_error samples 0 = Some first ->
  main ATmega328P flatten_volume samples sampling_rate junk_f junk_m = Ok evs ->
  exists a freq_indexes normalized_modules,
    analyse ATmega328P samples sampling_rate junk_f junk_m = Ok a /\
    quantize ATmega328P (frequencies a) = Ok freq_indexes /\
    normalize ATmega328P flatten_volume (modules a) = Ok normalized_modules /\
    Encoder.total_duration evs
    = (resampled_data_size ATmega328P (length first) sampling_rate * 1000)%Z /\
    Encoder.expand 1000 evs
    = Encoder.window_pairs
        (Z.to_nat (resampled_data_size ATmega328P (length first) sampling_rate))
        freq_indexes normalized_modules.
Proof.
  intros Hfirst Hmain. unfold main in Hmain.
  apply bind_ok in Hmain. destruct Hmain as (a & Ha & Hmain).
  apply bind_ok in Hmain. destruct Hmain as (fi & Hfi & Hmain).
  apply bind_ok in Hmain. destruct Hmain as (nm & Hnm & Hmain).
  destruct (analyse_inversion _ _ _ _ _ _ _ _ Hfirst eq_refl Ha)
    as (merged & chunks & found & _ & _ & Hpos & Hlen & _ & _ & Hfound
        & Hf & Hmo & Hd).
  pose proof (Forall2_length Hfound) as Hfl.
  pose proof (quantize_length _ _ _ Hfi) as Hlfi.
  pose proof (normalize_length _ _ _ _ Hnm) as Hlnm.
  rewrite Hf, length_app, length_map in Hlfi.
  rewrite Hmo, length_app, length_map in Hlnm. simpl in Hlfi, Hlnm.
  rewrite default_duration_ATmega328P in Hd. simpl repeat in Hd.
  rewrite Hd in Hmain.
  set (n := Z.to_nat (resampled_data_size ATmega328P (length first)
                        sampling_rate)) in *.
  assert (Hr : length (repeat 1000%Z n) = n) by apply repeat_length.
  destruct (compress_total 1000 (repeat 1000%Z n) fi nm)
    as (evs1 & He1 & Ht); [simpl; lia | simpl; lia |].
  destruct (compress_expansion 1000 (repeat 1000%Z n) fi nm)
    as (evs2 & He2 & Hx & _); [lia | simpl; lia | simpl; lia |].
  rewrite Hmain in He1, He2. inversion He1; inversion He2; subst evs1 evs2.
  exists a, fi, nm. repeat split; try assumption.
  - rewrite Ht, Hr. unfold n. lia.
  - now rewrite Hx, Hr.
Qed.

End WholePipeline.

(** ** More on the run-length encoder *)

Section EncoderBehaviour.

Import Encoder.

Lemma step_ok_or_index_error (d : Z) (frequency modules : list Z)
    (st : state) (i : nat) :
  (i < length frequency)%nat /\ (i < length modules)%nat /\
  (exists st', step d frequency modules st i = Ok st')
  \/
  ((length frequency <= i)%nat \/ (length modules <= i)%nat) /\
  step d frequency modules st i = Raise IndexError.
Proof.
  unfold step, index.
  destruct (nth_error frequency i) as [f|] eqn:Ef; cbn [bind].
  - assert (i < length frequency)%nat by (apply nth_error_Some; congruence).
    destruct (nth_error modules i) as [m|] eqn:Em; cbn [bind].
    + assert (i < length modules)%nat by (apply nth_error_Some; congruence).
      left. repeat split; try assumption.
      destruct (negb _ || negb _); eexists; reflexivity.
    + apply nth_error_None in Em. right. split; [now right | reflexivity].
  - apply nth_error_None in Ef. right. split; [now left | reflexivity].
Qed.

Lemma loop_raises (d : Z) (frequency modules : list Z) (indices : list nat)
    (st : state) :
  Exists (fun i => (length frequency <= i)%nat \/ (length modules <= i)%nat)
         indices ->
  loop d frequency modules indices st = Raise IndexError.
Proof.
  intros H. revert st. induction indices as [|i rest IH]; intros st.
  - inversion H.
  - simpl.
    destruct (step_ok_or_index_error d frequency modules st i)
      as [(Hf & Hm & st' & ->) | [_ ->]]; [|reflexivity].
    cbn [bind]. apply IH. inversion H; subst; [lia | assumption].
Qed.

Lemma compress_index_error (duration frequency modules : list Z) :
  ~ ((1 <= length duration <= length frequency)%nat /\
     (length duration <= length modules)%nat) ->
  compress_pwm_audio duration frequency modules = Raise IndexError.
Proof.
  intros Hn. unfold compress_pwm_audio, index.
  destruct duration as [|d rest]; [reflexivity|]. cbn [nth_error bind].
  destruct frequency as [|f0 fs]; [reflexivity|]. cbn [nth_error bind].
  destruct modules as [|m0 ms]; [reflexivity|]. cbn [nth_error bind].
  rewrite loop_raises; [reflexivity|].
  simpl length in *. replace (S (length rest) - 1)%nat with (length rest) by lia.
  set (k := Nat.min (S (length fs)) (S (length ms))).
  apply Exists_exists. exists k. split.
  - apply in_seq. unfold k. lia.
  - unfold k. lia.
Qed.

Lemma compress_ok_lengths (duration frequency modules : list Z)
    (evs : list ToneEvent) :
  compress_pwm_audio duration frequency modules = Ok evs ->
  (1 <= length duration <= length frequency)%nat /\
  (length duration <= length modules)%nat.
Proof.
  intros H.
  destruct (le_dec 1 (length duration));
    destruct (le_dec (length duration) (length frequency));
    destruct (le_dec (length duration) (length modules));
    try (repeat split; assumption);
    rewrite compress_index_error in H by lia; discriminate.
Qed.

(** X1: [compress_pwm_audio] returns a list of events exactly when
    [duration] is not empty and [frequency] and [modules] have an entry for
    each of its entries; in every other case it raises IndexError. *)
Theorem compress_returns_or_index_error (duration frequency modules : list Z) :
  ((1 <= length duration <= length frequency)%nat /\
   (length duration <= length modules)%nat ->
   exists evs, compress_pwm_audio duration frequency modules = Ok evs) /\
  (~ ((1 <= length duration <= length frequency)%nat /\
      (length duration <= length modules)%nat) ->
   compress_pwm_audio duration frequency modules = Raise IndexError).
Proof.
  split; [|apply compress_index_error].
  intros [[H1 Hf] Hm]. destruct duration as [|d rest]; [simpl in H1; lia|].
  destruct (compress_runs d rest frequency modules Hf Hm)
    as (runs & c & lf & lm & Hres & _).
  eexists. exact Hres.
Qed.

Lemma nae_snoc {A : Type} (l : list A) (a b : A) :
  no_adjacent_equal (l ++ [a]) -> a <> b ->
  no_adjacent_equal ((l ++ [a]) ++ [b]).
Proof.
  induction l as [|x l IH]; intros H Hab; simpl in *.
  - constructor; [assumption | constructor].
  - destruct l as [|y l]; simpl in *.
    + inversion H; subst. constructor; [assumption|].
      constructor; [assumption | constructor].
    + inversion H; subst. constructor; [assumption|]. now apply IH.
Qed.

Lemma step_heads_differ (d : Z) (frequency modules : list Z) (st st' : state)
    (i : nat) :
  heads_differ st -> step d frequency modules st i = Ok st' ->
  heads_differ st'.
Proof.
  intros (l & Hc & Hl & Hd & Hn) Hstep. unfold step in Hstep.
  destruct (index frequency i) as [f| |]; cbn [bind] in Hstep; try discriminate.
  destruct (index modules i) as [m| |]; cbn [bind] in Hstep; try discriminate.
  destruct (negb (f =? last_freq st)%Z || negb (m =? last_module st)%Z) eqn:E;
    injection Hstep as <-;
    unfold heads_differ;
    cbn [last_freq last_module new_durations new_frequencies new_modules].
  - exists (l ++ [(last_freq st, last_module st)]). repeat split.
    + rewrite combine_snoc by assumption. now rewrite Hc.
    + rewrite !length_app. simpl. lia.
    + rewrite !length_app. simpl. lia.
    + apply nae_snoc; [assumption|]. intros Heq. inversion Heq; subst.
      rewrite !Z.eqb_refl in E. discriminate.
  - exists l. repeat split; assumption.
Qed.

Lemma loop_heads_differ (d : Z) (frequency modules : list Z)
    (indices : list nat) (st st' : state) :
  heads_differ st -> loop d frequency modules indices st = Ok st' ->
  heads_differ st'.
Proof.
  revert st. induction indices as [|i rest IH]; intros st H Hloop; simpl in Hloop.
  - now inversion Hloop; subst.
  - destruct (step d frequency modules st i) as [st1| |] eqn:E;
      cbn [bind] in Hloop; try discriminate.
    eapply IH; [|exact Hloop]. eapply step_heads_differ; eassumption.
Qed.

Lemma zip3_pairs (ds fs ms : list Z) :
  length ds = length fs -> length fs = length ms ->
  map ev_pair (zip3 ds fs ms) = combine fs ms.
Proof.
  unfold zip3. revert fs ms. induction ds as [|d ds IH];
    intros [|f fs] [|m ms] H1 H2; simpl in *; try discriminate; auto.
  unfold ev_pair at 1. simpl. f_equal. apply IH; lia.
Qed.

(** X2: the runs [compress_pwm_audio] emits are maximal: no two
    consecutive events carry the same (bucket, level) pair. *)
Theorem compress_adjacent_events_differ
    (duration frequency modules : list Z) (evs : list ToneEvent) :
  compress_pwm_audio duration frequency modules = Ok evs ->
  no_adjacent_equal (map ev_pair evs).
Proof.
  unfold compress_pwm_audio. intros H.
  destruct (index duration 0) as [d| |]; cbn [bind] in H; try discriminate.
  destruct (index frequency 0) as [f0| |]; cbn [bind] in H; try discriminate.
  destruct (index modules 0) as [m0| |]; cbn [bind] in H; try discriminate.
  match type of H with
  | bind (loop _ _ _ _ ?s) _ = _ =>
      destruct (loop d frequency modules (seq 1 (length duration - 1)) s)
        as [st| |] eqn:E; cbn [bind] in H; try discriminate;
      assert (H0 : heads_differ s)
  end.
  { exists []. simpl. repeat split. constructor. }
  pose proof (loop_heads_differ _ _ _ _ _ _ H0 E) as (l & Hc & Hl & Hd & Hn).
  injection H as <-. rewrite zip3_pairs.
  - now rewrite Hc.
  - rewrite length_app. simpl. lia.
  - assumption.
Qed.

Lemma compress_adjacent_events_differ_witness :
  no_adjacent_equal
    (map ev_pair [(2000, 2, 9); (1000, 5, 9); (1000, 2, 9)]%Z).
Proof.
  apply (compress_adjacent_events_differ
           [1000; 1000; 1000; 1000; 1000]%Z [2; 2; 5; 2; 2]%Z
           [9; 9; 9; 9; 9]%Z).
  reflexivity.
Defined.

Lemma unfold_runs_length (runs : list run) :
  Forall (fun r => (1 <= fst r)%nat) runs ->
  (length runs <= length (unfold_runs runs))%nat.
Proof.
  unfold unfold_runs. induction 1 as [|r runs Hr _ IH]; simpl; [lia|].
  rewrite length_app, repeat_length. lia.
Qed.

Lemma unfold_runs_in (runs : list run) (r : run) :
  In r runs -> (1 <= fst r)%nat -> In (snd r) (unfold_runs runs).
Proof.
  unfold unfold_runs. intros Hin Hk. apply in_flat_map. exists r.
  split; [assumption|]. destruct (fst r); [lia | now left].
Qed.

Lemma in_firstn {A : Type} (n : nat) (l : list A) (x : A) :
  In x (firstn n l) -> In x l.
Proof.
  intros H. rewrite <- (firstn_skipn n l). apply in_or_app. now left.
Qed.

Lemma nth_error_combine {A B : Type} (l1 : list A) (l2 : list B) (i : nat)
    (a : A) (b : B) :
  nth_error (combine l1 l2) i = Some (a, b) ->
  nth_error l1 i = Some a /\ nth_error l2 i = Some b.
Proof.
  revert l2 i. induction l1 as [|x l1 IH]; intros [|y l2] [|i] H;
    simpl in *; try discriminate.
  - inversion H. now split.
  - now apply IH.
Qed.

Lemma window_pairs_in (n : nat) (frequency modules : list Z) (p : Z * Z) :
  In p (window_pairs n frequency modules) ->
  exists i, (i < n)%nat /\
    nth_error frequency i = Some (fst p) /\ nth_error modules i = Some (snd p).
Proof.
  unfold window_pairs. intros H.
  destruct (In_nth_error _ _ H) as [i Hi]. destruct p as [f m].
  apply nth_error_combine in Hi. destruct Hi as [H1 H2].
  rewrite nth_error_firstn in H1, H2.
  destruct (i <? n)%nat eqn:E; [|discriminate].
  apply Nat.ltb_lt in E. exists i. repeat split; assumption.
Qed.

(** The events of a successful call, each with the entry it starts at. *)
Lemma compress_events_from_entries (d : Z) (rest frequency modules : list Z)
    (evs : list ToneEvent) :
  compress_pwm_audio (d :: rest) frequency modules = Ok evs ->
  Forall (fun e => exists i, (i <= length rest)%nat /\
            nth_error frequency i = Some (fst (ev_pair e)) /\
            nth_error modules i = Some (snd (ev_pair e))) evs.
Proof.
  intros H. destruct (compress_ok_lengths _ _ _ _ H) as [[_ Hf] Hm].
  destruct (compress_runs d rest frequency modules Hf Hm)
    as (runs & c & lf & lm & Hres & Hu & Hlf & Hlm & Hk & _).
  rewrite H in Hres. injection Hres as ->.
  apply Forall_app. split.
  - apply Forall_forall. intros e He. apply in_map_iff in He.
    destruct He as (r & <- & Hr).
    rewrite Forall_forall in Hk.
    pose proof (unfold_runs_in runs r Hr (Hk r Hr)) as Hin.
    assert (Hin' : In (snd r) (window_pairs (length rest) frequency modules))
      by (rewrite <- Hu; apply in_or_app; now left).
    destruct (window_pairs_in _ _ _ _ Hin') as (i & Hi & H1 & H2).
    exists i. unfold ev_pair, event_of_run. simpl.
    destruct r as [k [f m]]. simpl in *. repeat split; try assumption. lia.
  - constructor; [|constructor]. exists (length rest).
    unfold ev_pair. simpl. repeat split; [lia | assumption | assumption].
Qed.

(** X3: for a call that returns, with [d = duration[0]]: every event's
    duration is [d] times a count; the count is at least 1 for every event
    but the last, so that for a positive [d] only the last event can have
    length zero; and there are never more events than entries. *)
Theorem compress_event_durations (duration frequency modules : list Z)
    (d : Z) (evs : list ToneEvent) :
  nth_error duration 0 = Some d ->
  compress_pwm_audio duration frequency modules = Ok evs ->
  exists front final,
    evs = front ++ [final] /\
    Forall (fun e => exists k, (1 <= k)%Z /\ ev_duration e = (d * k)%Z) front /\
    (exists c, (0 <= c)%Z /\ ev_duration final = (d * c)%Z) /\
    (length evs <= length duration)%nat.
Proof.
  intros Hd H. destruct (compress_ok_lengths _ _ _ _ H) as [[_ Hf] Hm].
  destruct duration as [|d' rest]; [discriminate|].
  simpl in Hd. injection Hd as ->.
  destruct (compress_runs d rest frequency modules Hf Hm)
    as (runs & c & lf & lm & Hres & Hu & _ & _ & Hk & _).
  rewrite H in Hres. injection Hres as ->.
  exists (map (event_of_run d) runs), ((d * Z.of_nat c)%Z, lf, lm).
  split; [reflexivity|]. split; [|split].
  - apply Forall_map. eapply Forall_impl; [|exact Hk]. intros r Hr.
    cbv beta in Hr. exists (Z.of_nat (fst r)). split; [lia | reflexivity].
  - exists (Z.of_nat c). split; [lia | reflexivity].
  - pose proof (unfold_runs_length runs Hk) as Hl.
    apply (f_equal (@length _)) in Hu.
    rewrite length_app, repeat_length, window_pairs_length in Hu
      by (simpl in Hf, Hm; lia).
    rewrite length_app, length_map. simpl. lia.
Qed.

Lemma compress_event_durations_witness :
  exists front final,
    [(2000, 2, 9); (1000, 5, 9); (1000, 2, 9)]%Z = front ++ [final] /\
    Forall (fun e => exists k, (1 <= k)%Z /\ ev_duration e = (1000 * k)%Z)
           front /\
    (exists c, (0 <= c)%Z /\ ev_duration final = (1000 * c)%Z) /\
    (length [(2000, 2, 9); (1000, 5, 9); (1000, 2, 9)]%Z
     <= length [1000; 1000; 1000; 1000; 1000]%Z)%nat.
Proof.
  apply (compress_event_durations [1000; 1000; 1000; 1000; 1000]%Z
           [2; 2; 5; 2; 2]%Z [9; 9; 9; 9; 9]%Z 1000%Z);
    reflexivity.
Defined.

(** X4: [compress_pwm_audio] invents no value: the bucket and the level of
    every event it returns are those of one and the same input entry, among
    the entries [duration] spans. *)
Theorem compress_events_are_entries (duration frequency modules : list Z)
    (evs : list ToneEvent) :
  compress_pwm_audio duration frequency modules = Ok evs ->
  Forall (fun e => exists i, (i < length duration)%nat /\
            nth_error frequency i = Some (fst (ev_pair e)) /\
            nth_error modules i = Some (snd (ev_pair e))) evs.
Proof.
  intros H. destruct duration as [|d rest]; [discriminate H|].
  eapply Forall_impl; [|exact (compress_events_from_entries _ _ _ _ _ H)].
  intros e (i & Hi & H1 & H2). exists i. simpl. repeat split; try assumption.
  lia.
Qed.

Lemma compress_events_are_entries_witness :
  Forall (fun e => exists i, (i < length [1000; 1000; 1000]%Z)%nat /\
            nth_error [2; 2; 5]%Z i = Some (fst (ev_pair e)) /\
            nth_error [9; 9; 9]%Z i = Some (snd (ev_pair e)))
         [(2000, 2, 9); (0, 5, 9)]%Z.
Proof.
  apply (compress_events_are_entries [1000; 1000; 1000]%Z [2; 2; 5]%Z
           [9; 9; 9]%Z).
  reflexivity.
Defined.

End EncoderBehaviour.

(** ** Recordings that [main] rejects *)

Section Rejections.

Import Numpy Pipeline.
Local Open Scope R_scope.

Lemma py_round_small (x : R) : 0 <= x <= 1 / 2 -> py_round x = 0%Z.
Proof.
  intros Hx. unfold py_round.
  assert (Hf : Zfloor x = 0%Z) by (apply Zfloor_eq; simpl; lra).
  rewrite Hf. simpl (IZR 0).
  destruct (Rlt_dec (x - 0) (1 / 2)) as [_|H1]; [reflexivity|].
  destruct (Rlt_dec (1 / 2) (x - 0)) as [H2|_]; [lra | reflexivity].
Qed.

Lemma py_round_floor (x : R) : (Zfloor x <= py_round x)%Z.
Proof.
  unfold py_round.
  destruct (Rlt_dec (x - IZR (Zfloor x)) (1 / 2)); [lia|].
  destruct (Rlt_dec (1 / 2) (x - IZR (Zfloor x))); [lia|].
  destruct (Z.even (Zfloor x)); lia.
Qed.

Lemma py_round_lower (x : R) (z : Z) : IZR z <= x -> (z <= py_round x)%Z.
Proof.
  intros H. pose proof (Zfloor_lub z x H). pose proof (py_round_floor x). lia.
Qed.

Lemma py_round_upper (x : R) (z : Z) : x <= IZR z -> (py_round x <= z)%Z.
Proof.
  intros H. unfold py_round.
  pose proof (Zfloor_bound x) as [Hlo Hhi].
  assert (Hfz : (Zfloor x <= z)%Z) by (apply le_IZR; lra).
  destruct (Rlt_dec (x - IZR (Zfloor x)) (1 / 2)) as [|H1]; [lia|].
  assert (Hlt : (Zfloor x < z)%Z).
  { apply lt_IZR. lra. }
  destruct (Rlt_dec (1 / 2) (x - IZR (Zfloor x))); [lia|].
  destruct (Z.even (Zfloor x)); lia.
Qed.

Lemma section_sizes_head (total n : nat) :
  (1 <= total)%nat -> (1 <= n)%nat ->
  exists s rest, section_sizes total n = s :: rest /\ (1 <= s)%nat.
Proof.
  intros Ht Hn. unfold section_sizes.
  destruct (total mod n)%nat as [|e] eqn:E.
  - cbn [repeat app]. rewrite Nat.sub_0_r.
    destruct n as [|n]; [lia|]. cbn [repeat].
    exists (total / S n)%nat, (repeat (total / S n)%nat n). split; [reflexivity|].
    pose proof (Nat.div_mod_eq total (S n)) as Hd. rewrite E in Hd.
    destruct (total / S n)%nat; lia.
  - cbn [repeat app]. eexists _, _. split; [reflexivity | lia].
Qed.

Lemma get_dominant_no_window (chunk : list R) (sampling_rate : Z) (w : R) :
  chunk <> [] -> py_round w = 0%Z ->
  get_dominant_freq_and_module chunk sampling_rate w = Raise ZeroDivisionError.
Proof.
  intros Hne Hw. unfold get_dominant_freq_and_module.
  destruct chunk as [|v chunk]; [contradiction|].
  cbn [fft bind]. rewrite Hw. unfold fftfreq.
  destruct (Req_dec_T (IZR 0 * (1 / IZR sampling_rate)) 0) as [_|H];
    [reflexivity|].
  exfalso. apply H. lra.
Qed.

(** X6: over exact real arithmetic, a recording of two or more channels
    with at least one sample per channel whose sampling rate is positive
    and at most half the playback rate (5 kHz for the ATmega328P) is
    rejected with [ZeroDivisionError]: the window size rounds to zero and
    [fftfreq] divides by it. *)
Theorem main_rejects_low_sampling_rate (m : mcu) (flatten_volume : bool)
    (samples : list (list R)) (S : nat) (sampling_rate : Z)
    (junk_f junk_m : R) :
  (2 <= length samples)%nat ->
  Forall (fun c => length c = S) samples ->
  (1 <= S)%nat ->
  (0 < sampling_rate)%Z ->
  (2 * sampling_rate <= playback_sampling_rate m)%Z ->
  main m flatten_volume samples sampling_rate junk_f junk_m
  = Raise ZeroDivisionError.
Proof.
  intros Htwo Hall HS Hsr Hlow.
  assert (Hne : samples <> []) by (destruct samples; [simpl in Htwo; lia | discriminate]).
  destruct (merged_channels_spec samples S Hne Hall) as (merged & Hm & Hml & _).
  destruct samples as [|first [|second rest]]; try (simpl in Htwo; lia).
  assert (Hfl : length first = S) by (inversion Hall; assumption).
  assert (Hsr' : 0 < IZR sampling_rate) by (apply IZR_lt; assumption).
  assert (Hpb : 2 * IZR sampling_rate <= IZR (playback_sampling_rate m)).
  { rewrite <- mult_IZR. apply IZR_le. assumption. }
  assert (Hw : py_round (IZR sampling_rate / IZR (playback_sampling_rate m))
               = 0%Z).
  { apply py_round_small. split.
    - apply Rlt_le, Rdiv_lt_0_compat; lra.
    - apply Rmult_le_reg_r with (IZR (playback_sampling_rate m)); [lra|].
      unfold Rdiv. rewrite Rmult_assoc, Rinv_l by lra. lra. }
  assert (HN : (2 <= resampled_data_size m (length first) sampling_rate)%Z).
  { unfold resampled_data_size. apply py_round_lower.
    assert (H1 : 1 <= INR (length first)).
    { rewrite Hfl. change 1 with (INR 1). apply le_INR. assumption. }
    apply Rle_trans with (1 / IZR sampling_rate * (2 * IZR sampling_rate)).
    - right. simpl. field. lra.
    - apply Rmult_le_compat; try lra.
      + apply Rlt_le, Rdiv_lt_0_compat; lra.
      + unfold Rdiv. apply Rmult_le_compat_r; [|assumption].
        apply Rlt_le, Rinv_0_lt_compat. assumption. }
  unfold main, analyse. cbn [first_channel bind].
  destruct (sampling_rate =? 0)%Z eqn:E; [apply Z.eqb_eq in E; lia|].
  rewrite Hm. cbn [bind]. unfold analyse_at, array_split.
  set (N := resampled_data_size m (length first) sampling_rate) in *.
  destruct (N <=? 0)%Z eqn:EN; [apply Z.leb_le in EN; lia|].
  destruct (section_sizes_head (length merged) (Z.to_nat N))
    as (s & sizes & -> & Hs); [lia | lia |].
  cbn [split_at_sizes bind traverse].
  rewrite get_dominant_no_window; [reflexivity | | assumption].
  destruct merged as [|v merged]; [simpl in Hml; lia|].
  destruct s as [|s]; [lia | discriminate].
Qed.

Lemma main_rejects_low_sampling_rate_witness :
  main ATmega328P false [[1; -2; 3]; [0; 5; -1]] 4000 0 0
  = Raise ZeroDivisionError.
Proof.
  apply (main_rejects_low_sampling_rate ATmega328P false
           [[1; -2; 3]; [0; 5; -1]] 3 4000 0 0).
  - simpl. lia.
  - repeat constructor.
  - lia.
  - lia.
  - simpl. lia.
Defined.

(** X7: over exact real arithmetic, a recording of two or more channels
    that is too short to give one window (its duration times the playback
    rate is at most 1/2 and rounds to zero or less, as for a recording with
    no sample) is rejected with [ValueError]: [np.array_split] is asked for
    no section (and [np.full], before it, for a negative size when the
    count is below -1). *)
Theorem main_rejects_short_recording (m : mcu) (flatten_volume : bool)
    (samples : list (list R)) (first : list R) (sampling_rate : Z)
    (junk_f junk_m : R) :
  (2 <= length samples)%nat ->
  nth_error samples 0 = Some first ->
  sampling_rate <> 0%Z ->
  (INR (length first) / IZR sampling_rate * IZR (playback_sampling_rate m)
   <= 1 / 2) ->
  main m flatten_volume samples sampling_rate junk_f junk_m
  = Raise ValueError.
Proof.
  intros Htwo Hfirst Hsr Hshort.
  assert (HN : (resampled_data_size m (length first) sampling_rate <= 0)%Z).
  { unfold resampled_data_size.
    set (x := INR (length first) / IZR sampling_rate
              * IZR (playback_sampling_rate m)) in *.
    destruct (Rle_dec 0 x) as [H0|H0].
    - rewrite py_round_small by lra. lia.
    - apply py_round_upper. simpl. lra. }
  destruct samples as [|c [|c' cs]]; try (simpl in Htwo; lia).
  injection Hfirst as ->.
  unfold main, analyse. cbn [first_channel bind].
  destruct (sampling_rate =? 0)%Z eqn:E; [apply Z.eqb_eq in E; contradiction|].
  unfold merged_channels, index, amax_axis0. cbn [nth_error bind].
  unfold analyse_at, array_split.
  destruct (_ <=? 0)%Z eqn:EN; [reflexivity|].
  apply Z.leb_gt in EN. lia.
Qed.

Lemma main_rejects_short_recording_witness :
  main ATmega328P false [[1; 2]; [3; 4]] 44100 0 0 = Raise ValueError.
Proof.
  apply (main_rejects_short_recording ATmega328P false
           [[1; 2]; [3; 4]] [1; 2] 44100 0 0).
  - simpl. lia.
  - reflexivity.
  - discriminate.
  - simpl. lra.
Defined.

End Rejections.

(** ** The order of the buckets *)

Section BucketOrder.

Import Numpy Pipeline.
Local Open Scope R_scope.

(** What a quantizer call that returns for an array holding a positive
    frequency has computed: edges [0 < g1 <= g2 <= g3 <= g4 <= hi] with
    [lo + 1 <= hi], and for every entry the bucket 6 minus the number of
    edges among [0, g1, g2, g3, g4, hi] that do not exceed it. *)
Lemma quantize_inversion (frequencies : list R) (idx : list Z) (lo hi : R) :
  quantize ATmega328P frequencies = Ok idx ->
  amin frequencies = Ok lo -> amax frequencies = Ok hi -> 0 < hi ->
  0 < lo + 1 <= hi /\
  exists g1 g2 g3 g4,
    0 < g1 /\ g1 <= g2 /\ g2 <= g3 /\ g3 <= g4 /\ g4 <= hi /\
    idx = map (fun f =>
                 Z.of_nat (6 - searchsorted [0; g1; g2; g3; g4; hi] f true))
              frequencies.
Proof.
  unfold quantize. intros H Hlo Hhi Hpos. rewrite Hlo, Hhi in H.
  cbn [bind] in H. rewrite available_freqs_count in H.
  apply bind_ok in H. destruct H as (bins & Hbins & H).
  assert (Hs : 0 < lo + 1).
  { unfold geomspace in Hbins.
    destruct (Req_dec_T (lo + 1) 0); [discriminate|].
    destruct (Req_dec_T hi 0); [discriminate|].
    destruct (Rlt_dec ((lo + 1) * hi) 0); [discriminate|]. nra. }
  rewrite geomspace_six in Hbins by nra. injection Hbins as <-.
  cbn [set_item0 bind rev app] in H.
  set (g1 := geom_point (lo + 1) hi 6 1) in *.
  set (g2 := geom_point (lo + 1) hi 6 2) in *.
  set (g3 := geom_point (lo + 1) hi 6 3) in *.
  set (g4 := geom_point (lo + 1) hi 6 4) in *.
  assert (Hg1 : 0 < g1) by (apply geom_point_pos; assumption).
  assert (Hdesc : hi < lo + 1 -> hi < g4).
  { intros Hlt.
    pose proof (geom_point_descending (lo + 1) hi 4 5 Hpos Hlt ltac:(lia))
      as H45.
    rewrite geom_point_last in H45 by lra. exact H45. }
  unfold digitize in H.
  set (k := length [hi; g4; g3; g2; g1; 0]) in H.
  assert (Hk : k = 6%nat) by reflexivity. clearbody k.
  remember (check_array_monotonic [hi; g4; g3; g2; g1; 0]) as mono eqn:Em.
  destruct (mono =? 0)%Z eqn:E0; [discriminate|].
  apply Z.eqb_neq in E0.
  assert (Hord : g1 <= g2 /\ g2 <= g3 /\ g3 <= g4 /\ g4 <= hi).
  { clearbody g1 g2 g3 g4. subst mono. revert E0 Hdesc. clear - Hg1 Hpos.
    unfold check_array_monotonic.
    cbn [skip_repeated never_descends never_ascends].
    decide_reals; intros E0 Hdesc; try (exfalso; apply E0; reflexivity);
      try lra. }
  assert (Hm : mono = (-1)%Z).
  { clearbody g1 g2 g3 g4. subst mono. clear - Hg1 Hpos Hord.
    unfold check_array_monotonic.
    cbn [skip_repeated never_descends never_ascends].
    decide_reals; reflexivity. }
  rewrite Hm in H. cbn [Z.eqb negb] in H. injection H as <-.
  split.
  - split; [assumption|].
    destruct (Rle_dec (lo + 1) hi) as [|Hn]; [assumption|].
    assert (hi < g4) by (apply Hdesc; lra). lra.
  - exists g1, g2, g3, g4. rewrite Hk. cbn [rev app]. tauto.
Qed.

Lemma fold_left_Rmax_in (l : list R) (acc : R) :
  fold_left Rmax l acc = acc \/ In (fold_left Rmax l acc) l.
Proof.
  revert acc; induction l as [|y l IH]; intros acc; simpl; [now left|].
  destruct (IH (Rmax acc y)) as [H | H]; [|now right; right].
  rewrite H. unfold Rmax. destruct (Rle_dec acc y); [right; now left | now left].
Qed.

Lemma amax_in (l : list R) (hi : R) : amax l = Ok hi -> In hi l.
Proof.
  destruct l as [|y l]; simpl; intros H; inversion H; subst.
  destruct (fold_left_Rmax_in l y) as [-> | Hin]; [now left | now right].
Qed.

Lemma searchsorted_mono (a : list R) (v v' : R) :
  v <= v' -> (searchsorted a v true <= searchsorted a v' true)%nat.
Proof.
  intros Hv. unfold searchsorted.
  induction a as [|b a IH]; simpl; [lia|].
  destruct (Rleb b v) eqn:E1, (Rleb b v') eqn:E2; simpl; try lia.
  exfalso. unfold Rleb in E1, E2.
  destruct (Rle_dec b v), (Rle_dec b v'); try discriminate. lra.
Qed.

(** X9: for a frequency array whose entries are all above -1 and one of
    which is positive (the arrays for which both ends of [np.geomspace] are
    positive, so that every edge is a number), a quantizer call that
    returns has given the buckets by a non-increasing function of the
    frequency: the highest frequency gets bucket 0, the index of the
    highest PWM frequency; a frequency of 0 gets bucket 5, the index of the
    lowest one; exactly the negative frequencies get 6, which indexes no
    available frequency. Arrays with an entry at or below -1 are left out:
    below -1 the program goes on with edges that are not numbers. *)
Theorem quantize_order (frequencies : list R) (idx : list Z) (top : R) :
  Forall (fun f => -1 < f) frequencies ->
  quantize ATmega328P frequencies = Ok idx ->
  In top frequencies -> 0 < top ->
  exists bucket : R -> Z,
    idx = map bucket frequencies /\
    (forall f f', f <= f' -> (bucket f' <= bucket f)%Z) /\
    (forall f, (forall f', In f' frequencies -> f' <= f) -> bucket f = 0%Z) /\
    bucket 0 = 5%Z /\
    (forall f, f < 0 <-> bucket f = 6%Z) /\
    (forall f, (0 <= bucket f <= 6)%Z).
Proof.
  intros _ H Htop Hpos.
  destruct (amin frequencies) as [lo| |] eqn:Hlo;
    try (destruct frequencies; [destruct Htop | discriminate Hlo]).
  destruct (amax frequencies) as [hi| |] eqn:Hhi;
    try (destruct frequencies; [destruct Htop | discriminate Hhi]).
  pose proof (amax_upper _ _ Hhi top Htop) as Hth.
  destruct (quantize_inversion frequencies idx lo hi H Hlo Hhi ltac:(lra))
    as (_ & g1 & g2 & g3 & g4 & H1 & H12 & H23 & H34 & H4 & ->).
  exists (fun f => Z.of_nat (6 - searchsorted [0; g1; g2; g3; g4; hi] f true)).
  split; [reflexivity|].
  set (edges := [0; g1; g2; g3; g4; hi]).
  assert (Hlen : forall f, Nat.le (searchsorted edges f true) 6)
    by (intros f; apply (searchsorted_le_length edges)).
  assert (Hneg : forall f, f < 0 -> searchsorted edges f true = 0%nat).
  { intros f Hf. apply searchsorted_none.
    repeat constructor; unfold Rleb; decide_reals; reflexivity. }
  assert (Hnn : forall f, 0 <= f -> Nat.le 1 (searchsorted edges f true)).
  { intros f Hf. unfold searchsorted, edges. cbn [filter]. unfold Rleb at 1.
    destruct (Rle_dec 0 f); [simpl; lia | contradiction]. }
  split; [|split; [|split; [|split]]].
  - intros f f' Hff.
    pose proof (searchsorted_mono edges f f' Hff). lia.
  - intros f Hf. pose proof (Hf hi (amax_in _ _ Hhi)) as Hhf.
    rewrite searchsorted_all; [reflexivity|].
    repeat constructor; unfold Rleb; decide_reals; reflexivity.
  - change edges with ([0] ++ [g1; g2; g3; g4; hi]).
    rewrite searchsorted_split; [reflexivity | |];
      repeat constructor; unfold Rleb; decide_reals; reflexivity.
  - intros f. split.
    + intros Hf. now rewrite Hneg.
    + intros Hb. destruct (Rlt_dec f 0) as [|Hf]; [assumption|].
      pose proof (Hnn f ltac:(lra)). lia.
  - intros f. pose proof (Hlen f). lia.
Qed.

Lemma quantize_order_witness :
  exists bucket : R -> Z,
    [5; 0]%Z = map bucket [0; 1] /\
    (forall f f', f <= f' -> (bucket f' <= bucket f)%Z) /\
    (forall f, (forall f', In f' [0; 1] -> f' <= f) -> bucket f = 0%Z) /\
    bucket 0 = 5%Z /\
    (forall f, f < 0 <-> bucket f = 6%Z) /\
    (forall f, (0 <= bucket f <= 6)%Z).
Proof.
  apply (quantize_order [0; 1] [5; 0]%Z 1).
  - repeat constructor; lra.
  - apply quantize_zero_then_one.
  - right. left. reflexivity.
  - lra.
Defined.

End BucketOrder.

(** ** The order of the levels *)

Section LevelOrder.

Import Numpy Pipeline.
Local Open Scope R_scope.









End LevelOrder.

(** ** The length of the result *)

Section ResultLength.

Import Numpy Pipeline.
Local Open Scope R_scope.

Lemma main_inversion (m : mcu) (flatten_volume : bool)
    (samples : list (list R)) (sampling_rate : Z) (junk_f junk_m : R)
    (evs : list Encoder.ToneEvent) :
  main m flatten_volume samples sampling_rate junk_f junk_m = Ok evs ->
  exists a freq_indexes normalized_modules,
    analyse m samples sampling_rate junk_f junk_m = Ok a /\
    quantize m (frequencies a) = Ok freq_indexes /\
    normalize m flatten_volume (modules a) = Ok normalized_modules /\
    Encoder.compress_pwm_audio (durations a) freq_indexes normalized_modules
    = Ok evs.
Proof.
  unfold main. intros H.
  apply bind_ok in H. destruct H as (a & Ha & H).
  apply bind_ok in H. destruct H as (fi & Hfi & H).
  apply bind_ok in H. destruct H as (nm & Hnm & H).
  exists a, fi, nm. auto.
Qed.

(** A recording of one silent sample per channel at 10 kHz, the unwritten
    cells holding 1 and 1. *)
Lemma main_one_sample_run :
  main ATmega328P false [[0]; [0]] 10000 1 1
  = Ok [(1000, 5, 0); (0, 0, 254)]%Z.
Proof.
  rewrite main_one_silent_sample, quantize_zero_then_one. cbn [bind].
  rewrite normalize_quiet_then_loud. reflexivity.
Qed.

Lemma normalize_levels (flatten_volume : bool) (modules : list R)
    (levels : list Z) :
  normalize ATmega328P flatten_volume modules = Ok levels ->
  Forall (fun l => (0 <= l <= if flatten_volume then 255 else 254)%Z) levels.
Proof.
  intros H. destruct flatten_volume.
  - eapply Forall_impl; [|exact (normalize_flatten_levels _ _ H)].
    intros l [-> | ->]; lia.
  - exact (normalize_range _ _ H).
Qed.

Lemma py_round_error (x : R) : - (1 / 2) <= IZR (py_round x) - x <= 1 / 2.
Proof.
  unfold py_round. pose proof (Zfloor_bound x) as [Hlo Hhi].
  destruct (Rlt_dec (x - IZR (Zfloor x)) (1 / 2)) as [H1|H1]; [lra|].
  destruct (Rlt_dec (1 / 2) (x - IZR (Zfloor x))) as [H2|H2].
  - rewrite plus_IZR. simpl. lra.
  - destruct (Z.even (Zfloor x)); [lra|]. rewrite plus_IZR. simpl. lra.
Qed.

(** X13: over exact real arithmetic, the events of a run of [main] that
    returns last as long as the recording: their total duration, in the ticks of which a window has
    1000 and a second 10^7, differs from the recording's length of
    [len(samples[0]) / sampling_rate] seconds by at most half a window
    (500 ticks). *)
Theorem main_preserves_duration (flatten_volume : bool)
    (samples : list (list R)) (first : list R) (sampling_rate : Z)
    (junk_f junk_m : R) (evs : list Encoder.ToneEvent) :
  nth_error samples 0 = Some first ->
  main ATmega328P flatten_volume samples sampling_rate junk_f junk_m = Ok evs ->
  Rabs (IZR (Encoder.total_duration evs)
        - INR (length first) / IZR sampling_rate * 10000000) <= 500.
Proof.
  intros Hfirst Hmain.
  destruct (main_covers_the_windows _ _ _ _ _ _ _ Hfirst Hmain)
    as (_ & _ & _ & _ & _ & _ & Ht & _).
  rewrite Ht, mult_IZR. unfold resampled_data_size.
  change (IZR (playback_sampling_rate ATmega328P)) with 10000.
  set (x := INR (length first) / IZR sampling_rate * 10000).
  pose proof (py_round_error x) as He.
  replace (INR (length first) / IZR sampling_rate * 10000000)
    with (x * 1000) by (unfold x; lra).
  apply Rabs_le. simpl (IZR 1000). lra.
Qed.

Lemma main_preserves_duration_witness :
  Rabs (IZR (Encoder.total_duration [(1000, 5, 0); (0, 0, 254)]%Z)
        - INR (length [0]) / IZR 10000 * 10000000) <= 500.
Proof.
  apply (main_preserves_duration false [[0]; [0]] [0] 10000 1 1).
  - reflexivity.
  - apply main_one_sample_run.
Defined.

End ResultLength.

(** ** The printed table *)

Section PrintedTable.

Import Ascii.
Import Encoder Printer Reader.

(** Evaluates the value of the digit the goal reads. *)
Ltac digit_value :=
  match goal with
  | |- context [hex_value (Ascii ?a ?b ?c ?d ?e ?f ?g ?h)] =>
      let v := eval vm_compute in (hex_value (Ascii a b c d e f g h)) in
      change (hex_value (Ascii a b c d e f g h)) with v; cbv iota beta
  | |- context [dec_value (Ascii ?a ?b ?c ?d ?e ?f ?g ?h)] =>
      let v := eval vm_compute in (dec_value (Ascii a b c d e f g h)) in
      change (dec_value (Ascii a b c d e f g h)) with v; cbv iota beta
  end.

Lemma expect_app (p s : text) : expect p (p ++ s) = Some s.
Proof.
  induction p as [|c p IH]; simpl; [now destruct s|].
  now rewrite Ascii.eqb_refl.
Qed.

Lemma read_hex_acc (u : Hexadecimal.uint) (acc : positive) (rest : text) :
  hex_stop rest ->
  read_hex (N.pos acc) (hex_upper u ++ rest)
  = (N.pos (Pos.of_hex_uint_acc u acc), rest).
Proof.
  intros Hstop. revert acc.
  induction u as [|u IH|u IH|u IH|u IH|u IH|u IH|u IH|u IH|u IH|u IH|u IH|u IH
                  |u IH|u IH|u IH|u IH];
    intros acc; cbn [hex_upper app read_hex Pos.of_hex_uint_acc];
    try (digit_value;
         match goal with
         | |- read_hex ?a _ = (N.pos (Pos.of_hex_uint_acc _ ?b), _) =>
             replace a with (N.pos b) by lia
         end; apply IH).
  destruct rest as [|c rest]; [reflexivity|].
  cbn [read_hex]. simpl in Hstop. now rewrite Hstop.
Qed.

Lemma read_hex_digits (u : Hexadecimal.uint) (rest : text) :
  hex_stop rest ->
  read_hex 0 (hex_upper u ++ rest) = (N.of_hex_uint u, rest).
Proof.
  intros Hstop. unfold N.of_hex_uint.
  induction u as [|u IH|u IH|u IH|u IH|u IH|u IH|u IH|u IH|u IH|u IH|u IH|u IH
                  |u IH|u IH|u IH|u IH];
    cbn [hex_upper app read_hex Pos.of_hex_uint];
    try (digit_value; apply (read_hex_acc u _ rest Hstop)).
  - destruct rest as [|c rest]; [reflexivity|].
    cbn [read_hex]. simpl in Hstop. now rewrite Hstop.
  - digit_value. exact IH.
Qed.

Lemma read_hex_zeros (k : nat) (s : text) :
  read_hex 0 (repeat "0"%char k ++ s) = read_hex 0 s.
Proof.
  induction k as [|k IH]; [reflexivity|].
  cbn [repeat app read_hex]. digit_value. exact IH.
Qed.

Lemma read_format_X (width : nat) (z : Z) (rest : text) :
  (0 <= z)%Z -> hex_stop rest ->
  read_hex 0 (format_X width z ++ rest) = (Z.to_N z, rest).
Proof.
  intros Hz Hstop. unfold format_X, zero_pad.
  destruct (z <? 0)%Z eqn:E; [apply Z.ltb_lt in E; lia|].
  rewrite <- app_assoc, read_hex_zeros, read_hex_digits by assumption.
  now rewrite HexadecimalN.Unsigned.of_to.
Qed.

Lemma read_dec_acc (u : Decimal.uint) (acc : nat) (rest : text) :
  dec_stop rest ->
  read_dec acc (decimal u ++ rest) = (Nat.of_uint_acc u acc, rest).
Proof.
  intros Hstop. revert acc.
  induction u as [|u IH|u IH|u IH|u IH|u IH|u IH|u IH|u IH|u IH|u IH];
    intros acc; cbn [decimal app read_dec Nat.of_uint_acc];
    try (digit_value; rewrite Nat.tail_mul_spec;
         match goal with
         | |- read_dec ?a _ = (Nat.of_uint_acc _ ?b, _) =>
             replace a with b by lia
         end; apply IH).
  destruct rest as [|c rest]; [reflexivity|].
  cbn [read_dec]. simpl in Hstop. now rewrite Hstop.
Qed.

Lemma read_format_len (n : nat) (rest : text) :
  dec_stop rest -> read_dec 0 (format_len n ++ rest) = (n, rest).
Proof.
  intros Hstop. unfold format_len. rewrite read_dec_acc by assumption.
  change (Nat.of_uint_acc (Nat.to_uint n) 0) with (Nat.of_uint (Nat.to_uint n)).
  now rewrite DecimalNat.Unsigned.of_to.
Qed.

Lemma read_event_text (e : ToneEvent) (rest : text) :
  plain e -> read_event (event_text e ++ rest) = Some (e, rest).
Proof.
  destruct e as [[d f] m]. unfold plain, ev_duration, ev_pair. cbn [fst snd].
  intros (Hd & Hf & Hm). unfold read_event, event_text.
  rewrite <- !app_assoc.
  rewrite expect_app, read_format_X by (try assumption; reflexivity).
  rewrite expect_app, read_format_X by (try assumption; reflexivity).
  rewrite expect_app, read_format_X by (try assumption; reflexivity).
  rewrite expect_app, !Z2N.id by assumption. reflexivity.
Qed.

Lemma event_text_head (e : ToneEvent) :
  exists t, event_text e = "{"%char :: t.
Proof. destruct e as [[d f] m]. eexists. reflexivity. Qed.

Lemma skip_blank_pre (pre s : text) :
  Forall (fun c => blank c = true) pre ->
  skip_blank (pre ++ "{"%char :: s) = "{"%char :: s.
Proof.
  induction 1 as [|c pre Hc _ IH]; [reflexivity|].
  cbn [app skip_blank]. now rewrite Hc.
Qed.

Lemma event_text_length (e : ToneEvent) : (1 <= length (event_text e))%nat.
Proof. destruct (event_text_head e) as [t ->]. simpl. lia. Qed.

Lemma write_rows_length (i : nat) (rows : list ToneEvent) :
  (length rows <= length (write_rows i rows))%nat.
Proof.
  revert i; induction rows as [|e rows IH]; intros i; [simpl; lia|].
  cbn [write_rows length]. rewrite !length_app.
  pose proof (event_text_length e). specialize (IH (S i)). lia.
Qed.

(** The rows, read back: the events written by the loop and the last
    one. *)
Lemma read_events_rows (rows : list ToneEvent) (e : ToneEvent) :
  Forall plain rows -> plain e ->
  forall (i fuel : nat) (pre : text),
    Forall (fun c => blank c = true) pre ->
    (length rows < fuel)%nat ->
    read_events fuel
      (pre ++ write_rows i rows ++ event_text e ++ closing)
    = Some (rows ++ [e]).
Proof.
  intros Hrows He. induction Hrows as [|r rows Hr _ IH];
    intros i fuel pre Hpre Hfuel; (destruct fuel as [|fuel]; [simpl in Hfuel; lia|]).
  - cbn [write_rows app read_events].
    destruct (event_text_head e) as [t Ht]. rewrite Ht.
    cbn [app]. rewrite skip_blank_pre by assumption.
    change ("{"%char :: t ++ closing) with (("{"%char :: t) ++ closing).
    rewrite <- Ht, read_event_text by assumption. reflexivity.
  - cbn [write_rows read_events].
    destruct (event_text_head r) as [t Ht].
    rewrite <- !app_assoc. rewrite Ht. cbn [app].
    rewrite skip_blank_pre by assumption.
    match goal with
    | |- context [read_event ("{"%char :: t ++ ?rest)] =>
        change ("{"%char :: t ++ rest) with (("{"%char :: t) ++ rest)
    end.
    rewrite <- Ht, read_event_text by assumption.
    cbn [lit String.list_ascii_of_string app skip_blank blank].
    change (blank ","%char) with false. cbv iota beta.
    change (Ascii.eqb ","%char ","%char) with true. cbv iota.
    rewrite IH; [reflexivity | | simpl in Hfuel; lia].
    destruct (i mod 3 =? 0)%nat; repeat constructor.
Qed.

Lemma print_result_snoc (front : list ToneEvent) (e : ToneEvent) :
  print_result (front ++ [e])
  = (header (length (front ++ [e])) ++ write_rows 1 front
     ++ event_text e ++ closing, Ok tt).
Proof.
  unfold print_result. rewrite removelast_last.
  destruct (front ++ [e]) as [|e0 rest] eqn:E.
  - destruct front; discriminate.
  - rewrite <- E, last_last, <- !app_assoc. reflexivity.
Qed.

(** The table written for the events [front ++ [e]], read back. *)
Lemma read_table_written (front : list ToneEvent) (e : ToneEvent) :
  Forall plain front -> plain e ->
  read_table (header (length (front ++ [e])) ++ write_rows 1 front
              ++ event_text e ++ closing)
  = Some (front ++ [e]).
Proof.
  intros Hfront He.
  unfold read_table, header. rewrite <- !app_assoc.
  rewrite expect_app, read_format_len by reflexivity.
  rewrite (app_assoc [newline] (lit _) _).
  rewrite (app_assoc (lit _) ([newline] ++ lit _) _).
  rewrite expect_app.
  rewrite (app_assoc [newline] (lit _) _).
  rewrite read_events_rows; try assumption.
  - now rewrite Nat.eqb_refl.
  - repeat constructor.
  - rewrite !length_app. pose proof (write_rows_length 1 front). simpl. lia.
Qed.

(** X15: for a non-empty list of events with no negative field,
    [print_result] ends normally and the table it has written holds these
    events: read back as C source, the rows are the events, in order, and
    [soundDataLen] is their number. *)
Theorem print_result_round_trip (data : list ToneEvent) :
  data <> [] -> Forall plain data ->
  exists written,
    print_result data = (written, Ok tt) /\
    read_table written = Some data.
Proof.
  intros Hne Hplain.
  destruct (exists_last Hne) as (front & e & ->).
  apply Forall_app in Hplain. destruct Hplain as [Hfront He].
  inversion He as [|? ? Hpe _]; subst.
  rewrite print_result_snoc. eexists. split; [reflexivity|].
  now apply read_table_written.
Qed.

Lemma print_result_round_trip_witness :
  exists written,
    print_result [(1000, 5, 0); (0, 0, 254)]%Z = (written, Ok tt) /\
    read_table written = Some [(1000, 5, 0); (0, 0, 254)]%Z.
Proof.
  apply (print_result_round_trip [(1000, 5, 0); (0, 0, 254)]%Z).
  - discriminate.
  - repeat constructor; unfold ev_duration, ev_pair; simpl; lia.
Defined.

(** X16: [print_result] fails only on an empty list, with [IndexError]
    and the header already written to the file; and [compress_pwm_audio]
    never returns an empty list, so that the last step of [main] cannot
    fail on the encoder's result. *)
Theorem print_result_after_compress (duration frequency modules : list Z)
    (data : list ToneEvent) :
  (snd (print_result data) = Raise IndexError <-> data = []) /\
  (data = [] -> fst (print_result data) = header 0) /\
  (compress_pwm_audio duration frequency modules = Ok data ->
   snd (print_result data) = Ok tt).
Proof.
  split; [|split].
  - destruct data; simpl; split; intros H; try reflexivity; discriminate H.
  - intros ->. unfold print_result. cbn [removelast write_rows length].
    apply app_nil_r.
  - intros H. destruct (compress_ok_lengths _ _ _ _ H) as [[Hd Hf] Hm].
    destruct duration as [|d rest]; [simpl in Hd; lia|].
    destruct (compress_runs d rest frequency modules Hf Hm)
      as (runs & c & lf & lm & Hres & _).
    rewrite H in Hres. apply Ok_inj in Hres. subst data.
    now rewrite print_result_snoc.
Qed.

Lemma print_result_after_compress_witness :
  snd (print_result [(2000, 2, 9); (1000, 5, 9); (1000, 2, 9)]%Z) = Ok tt.
Proof.
  apply (print_result_after_compress [1000; 1000; 1000; 1000; 1000]%Z
           [2; 2; 5; 2; 2]%Z [9; 9; 9; 9; 9]%Z).
  reflexivity.
Defined.

Lemma Forall2_nth_error_r {A B : Type} (P : A -> B -> Prop) (l1 : list A)
    (l2 : list B) (i : nat) (y : B) :
  Forall2 P l1 l2 -> nth_error l2 i = Some y ->
  exists x, nth_error l1 i = Some x /\ P x y.
Proof.
  intros H. revert i. induction H as [|x0 y0 l1 l2 Hxy _ IH]; intros i Hi.
  - destruct i; discriminate.
  - destruct i as [|i]; simpl in Hi.
    + apply Some_inj in Hi. subst. exists x0. auto.
    + destruct (IH i Hi) as (x & Hx & HP). exists x. auto.
Qed.

(** X17: whenever [main] gets as far as [print_result], the file it leaves
    holds the events it computed: [print_result] ends normally and the
    table, read back as C source, is the list of events. *)
Theorem main_table (flatten_volume : bool) (samples : list (list R))
    (first : list R) (sampling_rate : Z) (junk_f junk_m : R)
    (data : list ToneEvent) :
  nth_error samples 0 = Some first ->
  Pipeline.main Pipeline.ATmega328P flatten_volume samples sampling_rate
    junk_f junk_m = Ok data ->
  exists written,
    print_result data = (written, Ok tt) /\
    read_table written = Some data.
Proof.
  intros Hfirst Hmain.
  destruct (main_inversion _ _ _ _ _ _ _ Hmain)
    as (a & fi & nm & Ha & Hfi & Hnm & Hc).
  destruct (analyse_inversion _ _ _ _ _ _ _ _ Hfirst eq_refl Ha)
    as (merged & chunks & found & _ & _ & _ & _ & _ & _ & _ & _ & _ & Hd).
  rewrite default_duration_ATmega328P in Hd. cbn [repeat] in Hd.
  rewrite Hd in Hc.
  set (n := Z.to_nat _) in Hc.
  pose proof (quantize_range _ _ Hfi) as Hq.
  pose proof (normalize_levels _ _ _ Hnm) as Hl. rewrite Forall_forall in Hl.
  destruct (compress_ok_lengths _ _ _ _ Hc) as [[_ Hlf] Hlm].
  destruct (compress_runs 1000 (repeat 1000%Z n) fi nm Hlf Hlm)
    as (runs & c & lf & lm & Hres & _).
  pose proof (compress_events_from_entries _ _ _ _ _ Hc) as Hev.
  rewrite Hc in Hres. apply Ok_inj in Hres. subst data.
  assert (Hplain : Forall plain
            (map (event_of_run 1000) runs ++ [((1000 * Z.of_nat c)%Z, lf, lm)])).
  { apply Forall_forall. intros e Hin.
    rewrite Forall_forall in Hev. destruct (Hev e Hin) as (i & _ & Hi1 & Hi2).
    split; [|split].
    - apply in_app_or in Hin. destruct Hin as [Hin | [<- | []]].
      + apply in_map_iff in Hin. destruct Hin as (r & <- & _).
        unfold event_of_run, ev_duration. cbn [fst]. lia.
      + unfold ev_duration. cbn [fst]. lia.
    - destruct (Forall2_nth_error_r _ _ _ _ _ Hq Hi1) as (f & _ & [H0 _]).
      lia.
    - apply nth_error_In in Hi2. apply Hl in Hi2.
      destruct flatten_volume; lia. }
  apply Forall_app in Hplain. destruct Hplain as [Hfront He].
  inversion He as [|? ? Hpe _]; subst.
  rewrite print_result_snoc. eexists. split; [reflexivity|].
  now apply read_table_written.
Qed.

Lemma main_table_witness :
  exists written,
    print_result [(1000, 5, 0); (0, 0, 254)]%Z = (written, Ok tt) /\
    read_table written = Some [(1000, 5, 0); (0, 0, 254)]%Z.
Proof.
  apply (main_table false [[0%R]; [0%R]] [0%R] 10000 1 1).
  - reflexivity.
  - apply main_one_sample_run.
Defined.

End PrintedTable.
